(** * webos-homebrew-channel: the elevation patcher and the control service

    A shallow embedding of [services/elevate-service.ts] and
    [services/service.ts] (with the export table of [services/adapter.ts]),
    and the properties of the specification checked against it.

    A file system is a finite map from files to contents.  The patcher
    builds its paths from unchecked arguments, so there a file is
    identified by what its path resolves to; the paths of the control
    service are fixed.  JavaScript strings are modelled as Rocq strings,
    [undefined] as [None] where a binding may be unset. *)

From Stdlib Require Import String Ascii List ZArith Bool Lia.
From stdpp Require Import base option list gmap strings pretty.

Set Warnings "-register-all".

Local Open Scope string_scope.
Local Open Scope list_scope.

(** ** JavaScript strings *)

Module JsString.

(** the double-quote character as a one-character text *)
Definition dq : string := String "034"%char EmptyString.

(** [s.startsWith(p)] *)
Fixpoint startsWith (p s : string) : bool :=
  match p, s with
  | EmptyString, _ => true
  | String a p', String b s' => if Ascii.eqb a b then startsWith p' s' else false
  | String _ _, EmptyString => false
  end.

Fixpoint drop (n : nat) (s : string) : string :=
  match n, s with
  | O, _ => s
  | S n', String _ s' => drop n' s'
  | S _, EmptyString => EmptyString
  end.

(** [s.includes(pat)] *)
Fixpoint includes (s pat : string) : bool :=
  if startsWith pat s then true
  else match s with
       | EmptyString => false
       | String _ s' => includes s' pat
       end.

(** [s.replace(pat, rep)] with a string pattern: only the first
    occurrence is replaced.  None of the replacement texts of the
    program contains a dollar sign, so the replacement is literal. *)
Fixpoint replace (s pat rep : string) : string :=
  if startsWith pat s then rep +:+ drop (String.length pat) s
  else match s with
       | EmptyString => EmptyString
       | String c s' => String c (replace s' pat rep)
       end.

(** [s.split(sep)] for a one-character separator. *)
Fixpoint split (sep : ascii) (s : string) : list string :=
  match s with
  | EmptyString => [EmptyString]
  | String c s' =>
      if Ascii.eqb c sep then EmptyString :: split sep s'
      else match split sep s' with
           | [] => [String c EmptyString]
           | w :: ws => String c w :: ws
           end
  end.

(** [l.join(sep)] *)
Fixpoint join (sep : string) (l : list string) : string :=
  match l with
  | [] => EmptyString
  | [w] => w
  | w :: ws => w +:+ sep +:+ join sep ws
  end.

End JsString.

(** ** JavaScript values *)

Inductive value : Type :=
| VUndefined
| VNull
| VBool (b : bool)
| VNum (n : Z)
| VStr (s : string)
| VArr (items : list value)
| VObj (fields : list (string * value)).

Module Js.

(** ToBoolean *)
Definition truthy (v : value) : bool :=
  match v with
  | VUndefined | VNull => false
  | VBool b => b
  | VNum n => negb (n =? 0)%Z
  | VStr s => negb (String.eqb s "")
  | VArr _ | VObj _ => true
  end.

(** [v === s] for a string [s] *)
Definition is_str (s : string) (v : value) : bool :=
  match v with
  | VStr t => String.eqb t s
  | _ => false
  end.

Fixpoint assoc (k : string) (fields : list (string * value)) : option value :=
  match fields with
  | [] => None
  | (k', v) :: rest => if String.eqb k' k then Some v else assoc k rest
  end.

(** assignment to an own property: an existing key keeps its place. *)
Fixpoint assoc_set (k : string) (v : value) (fields : list (string * value))
  : list (string * value) :=
  match fields with
  | [] => [(k, v)]
  | (k', v') :: rest =>
      if String.eqb k' k then (k, v) :: rest else (k', v') :: assoc_set k v rest
  end.

(** object spread [{...a, ...b}] *)
Definition spread (a b : list (string * value)) : list (string * value) :=
  fold_left (fun acc kv => assoc_set (fst kv) (snd kv) acc) b a.

(** [v.k] for a value that is neither [null] nor [undefined] *)
Definition prop (k : string) (v : value) : value :=
  match v with
  | VObj fields => default VUndefined (assoc k fields)
  | _ => VUndefined
  end.

(** how a template literal prints a value *)
Fixpoint to_string (v : value) : string :=
  match v with
  | VUndefined => "undefined"
  | VNull => "null"
  | VBool true => "true"
  | VBool false => "false"
  | VNum n => pretty n
  | VStr s => s
  | VArr items =>
      JsString.join ","
        (map (fun x => match x with
                       | VUndefined | VNull => EmptyString
                       | _ => to_string x
                       end) items)
  | VObj _ => "[object Object]"
  end.

(** whether the conversion to text succeeds.  A parsed JSON object with an
    own property named [toString] cannot be converted: the property is no
    function, and [valueOf] gives no primitive, so the conversion is a
    [TypeError]; the elements of an array are converted one by one. *)
Fixpoint printable (v : value) : bool :=
  match v with
  | VObj fields =>
      match assoc "toString" fields with
      | Some _ => false
      | None => true
      end
  | VArr items =>
      forallb (fun x => match x with
                        | VUndefined | VNull => true
                        | _ => printable x
                        end) items
  | _ => true
  end.

(** [a === b] where one side is a primitive: objects and arrays are
    compared by identity, and a parsed document is never identical to
    another value. *)
Definition strict_eq (a b : value) : bool :=
  match a, b with
  | VUndefined, VUndefined | VNull, VNull => true
  | VBool x, VBool y => Bool.eqb x y
  | VNum x, VNum y => (x =? y)%Z
  | VStr x, VStr y => String.eqb x y
  | _, _ => false
  end.

(** own enumerable string-keyed properties of a value, as spread sees it *)
Definition own_fields (v : value) : list (string * value) :=
  match v with
  | VObj fs => fs
  | _ => []
  end.

End Js.

(** ** The elevation patcher ([services/elevate-service.ts]) *)

Module Elevate.

(** What the patcher takes from its JavaScript runtime and its platform:
    the JSON codec ([JSON.parse] fails with a [SyntaxError] on malformed
    text), whether [writeFileSync] coerces a non-string, non-buffer datum
    to text (the runtimes before Node 14 do, later ones raise a
    [TypeError]), and which file a path names: [realpath] gives the name
    under which the file system keeps the file that [statSync],
    [readFileSync] and [writeFileSync] reach through the path (segments
    [.] and [..] and links resolved).  Two paths with the same [realpath]
    are the same file. *)
Record runtime := Runtime {
  JSON_parse : string -> option value;
  JSON_stringify : value -> string;
  coerces_data : bool;
  realpath : string -> string
}.

(** The state a run acts on: the regular files (by the name [realpath]
    gives them), the calls of [writeFileSync] (path as passed and datum,
    oldest first), the console lines and the commands started with
    [execFile]. *)
Record world := World {
  files : gmap string string;
  writes : list (string * option string);
  console : list string;
  execs : list (string * list string)
}.

Inductive exn :=
| TypeError (msg : string)
| SyntaxError
| SystemError (code : string).

Inductive outcome (A : Type) :=
| Returned (a : A) (w : world)
| Raised (e : exn) (w : world).
Arguments Returned {A} a w.
Arguments Raised {A} e w.

Definition M (A : Type) : Type := world -> outcome A.

Definition ret {A} (a : A) : M A := fun w => Returned a w.

Definition bind {A B} (m : M A) (k : A -> M B) : M B :=
  fun w => match m w with
           | Returned a w' => k a w'
           | Raised e w' => Raised e w'
           end.

Definition raise {A} (e : exn) : M A := fun w => Raised e w.

Definition final {A} (o : outcome A) : world :=
  match o with
  | Returned _ w => w
  | Raised _ w => w
  end.

Declare Scope js_scope.
Delimit Scope js_scope with js.
Notation "x <- m ;; k" := (bind m (fun x => k))
  (at level 100, m at next level, right associativity) : js_scope.
Notation "m ;;; k" := (bind m (fun _ => k))
  (at level 100, right associativity) : js_scope.
Local Open Scope js_scope.

(** [console.info(...)]: the arguments joined by a space. *)
Definition console_info (line : string) : M unit :=
  fun w => Returned tt
    {| files := files w; writes := writes w;
       console := console w ++ [line]; execs := execs w |}.

(** how [console.info] and template literals print a possibly unset text *)
Definition show (d : option string) : string :=
  match d with
  | Some s => s
  | None => "undefined"
  end.

Definition isFile (rt : runtime) (path : string) : M bool :=
  fun w => Returned (bool_decide (is_Some (files w !! realpath rt path))) w.

Definition readFileSync (rt : runtime) (path : string) : M string :=
  fun w => match files w !! realpath rt path with
           | Some c => Returned c w
           | None => Raised (SystemError "ENOENT") w
           end.

Definition writeFileSync (rt : runtime) (path : string) (data : option string)
  : M unit :=
  fun w =>
    let w' := {| files := files w; writes := writes w ++ [(path, data)];
                 console := console w; execs := execs w |} in
    match data with
    | Some s =>
        Returned tt {| files := <[realpath rt path := s]> (files w');
                       writes := writes w';
                       console := console w'; execs := execs w' |}
    | None =>
        if coerces_data rt then
          Returned tt {| files := <[realpath rt path := "undefined"]> (files w');
                         writes := writes w';
                         console := console w'; execs := execs w' |}
        else Raised (TypeError "The data argument must be a string or a buffer") w'
    end.

Definition execFile (file : string) (args : list string) : M unit :=
  fun w => Returned tt
    {| files := files w; writes := writes w;
       console := console w; execs := execs w ++ [(file, args)] |}.

(** [x && y] as a condition, for two possibly unset texts. *)
Definition both_truthy (a b : option string) : option (string * string) :=
  match a, b with
  | Some x, Some y =>
      if Js.truthy (VStr x) && Js.truthy (VStr y) then Some (x, y) else None
  | _, _ => None
  end.

(** [serviceFileNew !== serviceFileOriginal], where the left side may be
    [undefined]. *)
Definition strict_neq (new : option string) (original : string) : bool :=
  match new with
  | Some s => negb (String.eqb s original)
  | None => true
  end.

Definition dq : string := JsString.dq.

Definition hbchannel_service_dir : string :=
  "/media/developer/apps/usr/palm/services/org.webosbrew.hbchannel.service".

Definition patchServiceFile (rt : runtime) (serviceFile : string)
    (appName serviceName : option string) : M bool :=
  serviceFileOriginal <- readFileSync rt serviceFile ;;
  serviceFileNew <-
    (if negb (JsString.includes serviceFileOriginal "jailer") then
       console_info "[ ] Updating a NodeJS-Service." ;;;
       ret (Some (JsString.replace serviceFileOriginal "/usr/bin"
                    hbchannel_service_dir))
     else
       console_info "[ ] Updating a Native-Service." ;;;
       match both_truthy appName serviceName with
       | Some (app, svc) =>
           ret (Some (JsString.replace serviceFileOriginal
                        ("/usr/bin/jailer -t native_devmode -i " +:+ app
                         +:+ " -p /media/developer/apps/usr/palm/services/"
                         +:+ svc +:+ " ")
                        ""))
       | None =>
           console_info
             "[!] Updating Native-Service failed! Didn't got Application or Service name." ;;;
           ret None
       end) ;;
  if strict_neq serviceFileNew serviceFileOriginal then
    console_info ("[ ] Updating service definition: " +:+ serviceFile) ;;;
    console_info ("- " +:+ serviceFileOriginal) ;;;
    console_info ("+ " +:+ show serviceFileNew) ;;;
    writeFileSync rt serviceFile serviceFileNew ;;;
    ret true
  else ret false.

(** [serviceName.split('.').slice(0, -1).join('.')] *)
Definition default_appName (serviceName : string) : string :=
  JsString.join "." (removelast (JsString.split "." serviceName)).

(** The destructuring of [argv] with its defaults, and the special case
    of the bare application id. *)
Definition resolve_names (argv : list string) : string * string :=
  let serviceName :=
    match argv with
    | a :: _ => a
    | [] => "org.webosbrew.hbchannel.service"
    end in
  let appName :=
    match argv with
    | _ :: b :: _ => b
    | _ => default_appName serviceName
    end in
  if String.eqb serviceName "org.webosbrew.hbchannel"
  then ("org.webosbrew.hbchannel.service", "org.webosbrew.hbchannel")
  else (serviceName, appName).

Definition serviceFile_of (serviceName : string) : string :=
  "/var/luna-service2-dev/services.d/" +:+ serviceName +:+ ".service".
Definition clientPermFile_of (serviceName : string) : string :=
  "/var/luna-service2-dev/client-permissions.d/" +:+ serviceName +:+ ".root.json".
Definition apiPermFile_of (serviceName : string) : string :=
  "/var/luna-service2-dev/client-permissions.d/" +:+ serviceName
    +:+ ".api.public.json".
Definition manifestFile_of (appName : string) : string :=
  "/var/luna-service2-dev/manifests.d/" +:+ appName +:+ ".json".
Definition roleFile_of (serviceName : string) : string :=
  "/var/luna-service2-dev/roles.d/" +:+ serviceName +:+ ".service.json".
Definition legacyPubServiceFile_of (serviceName : string) : string :=
  "/var/palm/ls2-dev/services/pub/" +:+ serviceName +:+ ".service".
Definition legacyPrvServiceFile_of (serviceName : string) : string :=
  "/var/palm/ls2-dev/services/pub/" +:+ serviceName +:+ ".service".
Definition legacyPrvRolesFile_of (serviceName : string) : string :=
  "/var/palm/ls2-dev/roles/prv/" +:+ serviceName +:+ ".json".

Definition parse (rt : runtime) (text : string) : M value :=
  match JSON_parse rt text with
  | Some v => ret v
  | None => raise SyntaxError
  end.

(** [if (!isFile(f)) { console.info(...); writeFileSync(f, JSON.stringify(doc)); }]:
    the result tells whether the file was created. *)
Definition create_if_absent (rt : runtime) (what path : string) (doc : value)
  : M bool :=
  present <- isFile rt path ;;
  if present then ret false
  else
    console_info ("[ ] Creating " +:+ what +:+ " permissions file: " +:+ path) ;;;
    writeFileSync rt path (Some (JSON_stringify rt doc)) ;;;
    ret true.

(** [if (doc.key && doc.key.indexOf(path) === -1) { console.info(...); doc.key.push(path); }]
    on a parsed document: the document after the statement. *)
Definition push_if_missing (doc : value) (key path note : string) : M value :=
  match doc with
  | VUndefined | VNull =>
      raise (TypeError "Cannot read properties of null")
  | VObj fields =>
      match Js.assoc key fields with
      | None => ret doc
      | Some v =>
          if Js.truthy v then
            match v with
            | VArr items =>
                if existsb (Js.is_str path) items then ret doc
                else
                  console_info note ;;;
                  ret (VObj (Js.assoc_set key (VArr (items ++ [VStr path])) fields))
            | VStr s =>
                if JsString.includes s path then ret doc
                else
                  console_info note ;;;
                  raise (TypeError "push is not a function")
            | _ => raise (TypeError "indexOf is not a function")
            end
          else ret doc
      end
  | VBool _ | VNum _ | VStr _ | VArr _ => ret doc
  end.

(** the manifest block of [main]; the result tells whether it was rewritten *)
Definition patch_manifest (rt : runtime)
    (manifestFile clientPermFile apiPermFile : string) : M bool :=
  console_info ("[~] Found webOS 4.x+ manifest file: " +:+ manifestFile) ;;;
  manifestFileOriginal <- readFileSync rt manifestFile ;;
  manifestFileParsed <- parse rt manifestFileOriginal ;;
  doc1 <- push_if_missing manifestFileParsed "clientPermissionFiles" clientPermFile
            "[ ] manifest - adding client permissions file..." ;;
  doc2 <- push_if_missing doc1 "apiPermissionFiles" apiPermFile
            "[ ] manifest - adding API permissions file..." ;;
  let manifestFileNew := JSON_stringify rt doc2 in
  if negb (String.eqb manifestFileNew manifestFileOriginal) then
    console_info ("[~] Updating manifest file: " +:+ manifestFile) ;;;
    console_info ("- " +:+ manifestFileOriginal) ;;;
    console_info ("+ " +:+ manifestFileNew) ;;;
    writeFileSync rt manifestFile (Some manifestFileNew) ;;;
    ret true
  else ret false.

(** the callback given to [some] in both role checks: [finding === "*"] *)
Definition is_wildcard (finding : value) : bool := Js.is_str "*" finding.

Definition wildcard_permission : value :=
  VObj [("service", VStr "*"); ("outbound", VArr [VStr "*"]);
        ("inbound", VArr [VStr "*"])].

(** [if (doc.key.some(is_wildcard)) { console.info(found) } else { console.info(pushing); doc.key.push(entry) }] *)
Definition ensure_wildcard (doc : value) (key : string) (entry : value)
    (found pushing : string) : M value :=
  match doc with
  | VObj fields =>
      match Js.assoc key fields with
      | Some (VArr items) =>
          if existsb is_wildcard items then
            console_info found ;;; ret doc
          else
            console_info pushing ;;;
            ret (VObj (Js.assoc_set key (VArr (items ++ [entry])) fields))
      | Some (VUndefined | VNull) | None =>
          raise (TypeError "Cannot read properties of undefined")
      | Some _ => raise (TypeError "some is not a function")
      end
  | VUndefined | VNull => raise (TypeError "Cannot read properties of null")
  | _ => raise (TypeError "Cannot read properties of undefined")
  end.

(** the two role checks, on the parsed role document *)
Definition amend_role (doc : value) : M value :=
  doc1 <- ensure_wildcard doc "allowedNames" (VStr "*")
            "[ ] role - already containing wildcard for allowed names."
            "[ ] role - pushing wildcard for allowed names to file..." ;;
  ensure_wildcard doc1 "permissions" wildcard_permission
    "[ ] role - already containing wildcard for service permissions."
    "[ ] role - pushing wildcard for service permissions to file...".

(** the role block of [main]; the result tells whether it was rewritten *)
Definition patch_role (rt : runtime) (roleFile : string) : M bool :=
  console_info ("[~] Found webOS 4.x+ role file: " +:+ roleFile) ;;;
  roleFileOriginal <- readFileSync rt roleFile ;;
  roleFileParsed <- parse rt roleFileOriginal ;;
  amended <- amend_role roleFileParsed ;;
  let roleFileNew := JSON_stringify rt amended in
  if negb (String.eqb roleFileNew roleFileOriginal) then
    console_info ("[~] Updating role file: " +:+ roleFile) ;;;
    console_info ("- " +:+ roleFileOriginal) ;;;
    console_info ("+ " +:+ roleFileNew) ;;;
    writeFileSync rt roleFile (Some roleFileNew) ;;;
    ret true
  else ret false.

(** the block of [main] guarded by [isFile(serviceFile)] *)
Definition patch_current (rt : runtime) (serviceName appName : string) : M bool :=
  let serviceFile := serviceFile_of serviceName in
  let clientPermFile := clientPermFile_of serviceName in
  let apiPermFile := apiPermFile_of serviceName in
  let manifestFile := manifestFile_of appName in
  let roleFile := roleFile_of serviceName in
  console_info ("[~] Found webOS 3.x+ service file: " +:+ serviceFile) ;;;
  c1 <- patchServiceFile rt serviceFile (Some appName) (Some serviceName) ;;
  c2 <- create_if_absent rt "client" clientPermFile
          (VObj [(serviceName +:+ "*", VArr [VStr "all"])]) ;;
  c3 <- create_if_absent rt "API" apiPermFile
          (VObj [("public", VArr [VStr (serviceName +:+ "/*")])]) ;;
  hasManifest <- isFile rt manifestFile ;;
  c4 <- (if hasManifest
         then patch_manifest rt manifestFile clientPermFile apiPermFile
         else ret false) ;;
  hasRole <- isFile rt roleFile ;;
  c5 <- (if hasRole then patch_role rt roleFile else ret false) ;;
  ret (c1 || c2 || c3 || c4 || c5).

(** the block of [main] guarded by [isFile(legacyPubServiceFile)] *)
Definition patch_legacy (rt : runtime) (serviceName : string) : M bool :=
  let legacyPubServiceFile := legacyPubServiceFile_of serviceName in
  let legacyPrvServiceFile := legacyPrvServiceFile_of serviceName in
  let legacyPrvRolesFile := legacyPrvRolesFile_of serviceName in
  console_info ("[~] Found legacy webOS <3.x service file: "
                +:+ legacyPubServiceFile) ;;;
  c1 <- patchServiceFile rt legacyPubServiceFile None None ;;
  c2 <- patchServiceFile rt legacyPrvServiceFile None None ;;
  hasRoles <- isFile rt legacyPrvRolesFile ;;
  c3 <- (if hasRoles then
           prvRolesOriginal <- readFileSync rt legacyPrvRolesFile ;;
           let prvRolesNew :=
             JsString.replace prvRolesOriginal
               (dq +:+ "outbound" +:+ dq +:+ ":[]")
               (dq +:+ "outbound" +:+ dq +:+ ":[" +:+ dq +:+ "*" +:+ dq +:+ "]") in
           if negb (String.eqb prvRolesNew prvRolesOriginal) then
             console_info ("[ ] Updating service definition: "
                           +:+ legacyPrvRolesFile) ;;;
             console_info ("- " +:+ prvRolesOriginal) ;;;
             console_info ("+ " +:+ prvRolesNew) ;;;
             writeFileSync rt legacyPrvRolesFile (Some prvRolesNew) ;;;
             ret true
           else ret false
         else ret false) ;;
  ret (c1 || c2 || c3).

(** [main(argv)]: the result is [configChanged]. *)
Definition main (rt : runtime) (argv : list string) : M bool :=
  let '(serviceName, appName) := resolve_names argv in
  hasService <- isFile rt (serviceFile_of serviceName) ;;
  c1 <- (if hasService then patch_current rt serviceName appName else ret false) ;;
  hasLegacy <- isFile rt (legacyPubServiceFile_of serviceName) ;;
  c2 <- (if hasLegacy then patch_legacy rt serviceName else ret false) ;;
  let configChanged := c1 || c2 in
  (if configChanged then
     console_info "[+] Refreshing services..." ;;;
     execFile "ls-control" ["scan-services"]
   else console_info "[-] No changes, no rescan needed") ;;;
  ret configChanged.

(** *** Properties of runs *)

(** [m] takes every world to one related to it by [R], whether it returns
    or raises. *)
Definition respects {A} (R : world -> world -> Prop) (m : M A) : Prop :=
  forall w, R w (final (m w)).

(** as long as the file that [path] names holds [contents], it keeps them
    and no call of [writeFileSync] names it. *)
Definition untouched (rt : runtime) (path contents : string) (w w' : world) : Prop :=
  files w !! realpath rt path = Some contents ->
  files w' !! realpath rt path = Some contents /\
  exists ws, writes w' = writes w ++ ws /\
             Forall (fun wr => realpath rt (fst wr) <> realpath rt path) ws.

(** the paths of a run other than the two permission files *)
Definition other_paths (serviceName appName : string) : list string :=
  [serviceFile_of serviceName; manifestFile_of appName; roleFile_of serviceName;
   legacyPubServiceFile_of serviceName; legacyPrvServiceFile_of serviceName;
   legacyPrvRolesFile_of serviceName].

(** The patch of a descriptor without the marker as the specification
    words it: the generic directory is replaced by the directory of the
    named service's bundled binary. *)
Definition claimed_patch (serviceName original : string) : string :=
  JsString.replace original "/usr/bin"
    ("/media/developer/apps/usr/palm/services/" +:+ serviceName).

(** *** Sample inputs *)

(** The resolution of an absolute path in a file system without links in
    which the directories on the way exist: empty segments and [.] are
    skipped, [..] steps back (not beyond the root). *)
Fixpoint resolve_segments (stack segments : list string) : list string :=
  match segments with
  | [] => rev stack
  | segment :: rest =>
      if String.eqb segment "" || String.eqb segment "."
      then resolve_segments stack rest
      else if String.eqb segment ".."
           then resolve_segments (tail stack) rest
           else resolve_segments (segment :: stack) rest
  end.

Definition normalize (path : string) : string :=
  "/" +:+ JsString.join "/" (resolve_segments [] (JsString.split "/" path)).

Definition sample_runtime (coerces : bool) : runtime :=
  {| JSON_parse := fun _ => None;
     JSON_stringify := fun _ => "{}";
     coerces_data := coerces;
     realpath := normalize |}.

(** a runtime whose JSON codec knows the empty object, written with or
    without a blank; the run below parses and prints nothing else *)
Definition empty_object_runtime : runtime :=
  {| JSON_parse := fun text =>
       if String.eqb text "{ }" || String.eqb text "{}" then Some (VObj []) else None;
     JSON_stringify := fun doc =>
       match doc with VObj [] => "{}" | _ => "null" end;
     coerces_data := true;
     realpath := normalize |}.

(** a state in which the service [x] has its descriptor and both
    permission files, the client permission file written with a blank *)
Definition permitted_world : world :=
  {| files :=
       {[ "/var/luna-service2-dev/services.d/x.service" := "Exec=/opt/x/run";
          "/var/luna-service2-dev/client-permissions.d/x.root.json" := "{ }";
          "/var/luna-service2-dev/client-permissions.d/x.api.public.json" := "{}" ]};
     writes := []; console := []; execs := [] |}.

Definition sample_world (fs : gmap string string) : world :=
  {| files := fs; writes := []; console := []; execs := [] |}.

Definition role_bare : value :=
  VObj [("allowedNames", VArr []); ("permissions", VArr [])].

(** a role document with the wildcard name and [n] copies of the
    fully-open permission record *)
Definition role_after (n : nat) : value :=
  VObj [("allowedNames", VArr [VStr "*"]);
        ("permissions", VArr (repeat wildcard_permission n))].

Definition native_descriptor : string :=
  "Exec=/usr/bin/jailer -t native_devmode -i com.example.app -p /media/developer/apps/usr/palm/services/com.example.app.service /media/developer/apps/usr/palm/services/com.example.app.service/run".

Definition node_descriptor : string :=
  "Exec=/usr/bin/run-js-service -n /media/developer/apps/usr/palm/services/com.example.app.service".

(** *** Further properties of runs *)

(** the files [main] names for a service and its application *)
Definition artifact_paths (serviceName appName : string) : list string :=
  [serviceFile_of serviceName; clientPermFile_of serviceName;
   apiPermFile_of serviceName; manifestFile_of appName; roleFile_of serviceName;
   legacyPubServiceFile_of serviceName; legacyPrvServiceFile_of serviceName;
   legacyPrvRolesFile_of serviceName].

(** the file at [path] is the same, present or absent *)
Definition agrees_at (path : string) (w w' : world) : Prop :=
  files w' !! path = files w !! path.

(** no file is removed *)
Definition removes_nothing (w w' : world) : Prop :=
  forall path, is_Some (files w !! path) -> is_Some (files w' !! path).

(** no command is started *)
Definition keeps_execs (w w' : world) : Prop := execs w' = execs w.

(** what one call of [writeFileSync] does to the files *)
Definition apply_write (rt : runtime) (fs : gmap string string)
    (call : string * option string) : gmap string string :=
  match snd call with
  | Some s => <[realpath rt (fst call) := s]> fs
  | None => if coerces_data rt then <[realpath rt (fst call) := "undefined"]> fs else fs
  end.

(** the files after a list of calls of [writeFileSync], oldest first *)
Definition replay (rt : runtime) (calls : list (string * option string))
    (fs : gmap string string) : gmap string string :=
  fold_left (apply_write rt) calls fs.

(** the rescan of the service registry *)
Definition rescan : string * list string := ("ls-control", ["scan-services"]).

(** a step that starts no command and whose result is [true] exactly when
    [acc] is or when it has called [writeFileSync] *)
Definition accounted_from (acc : bool) (m : M bool) : Prop :=
  forall w b w', m w = Returned b w' ->
    execs w' = execs w /\
    exists ws, writes w' = writes w ++ ws /\ (b = true <-> acc = true \/ ws <> []).

(** a step that reports a change exactly when it has called [writeFileSync] *)
Definition accounted (m : M bool) : Prop := accounted_from false m.

(** a state in which only the descriptor of a NodeJS-style service exists *)
Definition node_service_world : world :=
  sample_world
    {[ "/var/luna-service2-dev/services.d/com.example.app.service.service"
       := node_descriptor ]}.

(** ... and one in which the manifest of its application exists as well *)
Definition manifest_world (manifest : string) : world :=
  sample_world
    {[ "/var/luna-service2-dev/services.d/com.example.app.service.service"
         := node_descriptor;
       "/var/luna-service2-dev/manifests.d/com.example.app.json" := manifest ]}.

(** a step that calls [writeFileSync] not at all *)
Definition silent {A} (m : M A) : Prop :=
  forall w a w', m w = Returned a w' -> execs w' = execs w /\ writes w' = writes w.

End Elevate.

(** ** Response envelopes ([services/protocol.ts]) *)

Module Protocol.

(** Modelled from the spec: [makeSuccess] of [services/protocol.ts], a file
    that is not among the sources; the specification gives it as the
    object merging [{returnValue: true}] with the given fields. *)
Definition makeSuccess (payload : value) : value :=
  VObj (Js.spread [("returnValue", VBool true)] (Js.own_fields payload)).

(** Modelled from the spec: [makeError] of [services/protocol.ts]; the
    object merging [{returnValue: false, errorText: message}] with the
    extra fields, which default to none. *)
Definition makeError (error : string) (payload : value) : value :=
  VObj (Js.spread [("returnValue", VBool false); ("errorText", VStr error)]
          (Js.own_fields payload)).

(** the envelope kinds, read off the [returnValue] field *)
Definition is_success (v : value) : bool :=
  match Js.assoc "returnValue" (Js.own_fields v) with
  | Some (VBool true) => true
  | _ => false
  end.

Definition is_error (v : value) : bool :=
  match Js.assoc "returnValue" (Js.own_fields v),
        Js.assoc "errorText" (Js.own_fields v) with
  | Some (VBool false), Some (VStr _) => true
  | _, _ => false
  end.

End Protocol.

(** ** The exports of the I/O adapter ([services/adapter.ts]) *)

Module Adapter.

(** the [export const] declarations of the file, in order *)
Definition exports : list string :=
  ["asyncPipeline"; "asyncExecFile"; "asyncStat"; "asyncUnlink"; "asyncWriteFile"].

(** whether [import { name } from './adapter'] binds a function; a name
    the module does not export is bound to [undefined]. *)
Definition exported (name : string) : bool :=
  existsb (String.eqb name) exports.

End Adapter.

(** ** Base64, as [Buffer.prototype.toString('base64')] prints it *)

Module Base64.

Definition alphabet : string :=
  "ABCDEFGHIJKLMNOPQRSTUVWXYZabcdefghijklmnopqrstuvwxyz0123456789+/".

Definition digit (n : N) : ascii :=
  match String.get (N.to_nat n) alphabet with
  | Some c => c
  | None => "="%char
  end.

Definition quad (a b c : N) (pad : nat) : string :=
  let n := (a * 65536 + b * 256 + c)%N in
  let d0 := digit (n / 262144) in
  let d1 := digit ((n / 4096) mod 64) in
  let d2 := digit ((n / 64) mod 64) in
  let d3 := digit (n mod 64) in
  match pad with
  | O => String d0 (String d1 (String d2 (String d3 EmptyString)))
  | S O => String d0 (String d1 (String d2 "="))
  | _ => String d0 (String d1 "==")
  end.

Fixpoint encode (bytes : string) : string :=
  match bytes with
  | EmptyString => EmptyString
  | String a EmptyString => quad (N_of_ascii a) 0 0 2
  | String a (String b EmptyString) => quad (N_of_ascii a) (N_of_ascii b) 0 1
  | String a (String b (String c rest)) =>
      quad (N_of_ascii a) (N_of_ascii b) (N_of_ascii c) 0 +:+ encode rest
  end.

(** the text whose characters have the given codes *)
Definition of_bytes (codes : list N) : string :=
  fold_right (fun n s => String (ascii_of_N n) s) EmptyString codes.

End Base64.

(** ** The control service ([services/service.ts]) *)

Module Service.

(** *** What the service meets outside itself *)

(** the response of [fetch]: status, the chunks of the body as they
    arrive, the error that ends the body stream early (if any), and the
    percentages the progress reporter emits. *)
Record fetch_response := FetchResponse {
  ok : bool;
  statusText : string;
  chunks : list string;
  stream_error : option string;
  progress : list Z
}.

(** what a bus subscription delivers *)
Inductive bus_message :=
| Response (payload : value)
| Cancelled (payload : value).

(** what a handler can throw or reject with: an [Error] (with its [name],
    [message] and, for a file-system error, [code]), or the payload of a
    failed bus call. *)
Inductive thrown :=
| JsError (name message : string) (code : option string)
| Rejected (payload : list (string * value)).

(** how a child process ends: with an exit status, by a signal, or with
    an error that Node does not make from the ending: the child could not
    be started ([started] is [false]; the error of the ['error'] event),
    or its output went beyond [maxBuffer] and Node stopped it.  Such an
    error is given by its message and its enumerable fields. *)
Inductive child_end :=
| Exited (code : Z)
| Signalled (signal : string)
| Errored (started : bool) (message : string) (fields : list (string * value)).

(** what [execFile] and [exec] pass to their callback: how the child
    ended, what it wrote to its output streams, and whether Node itself
    had sent it a signal; and, for a child that was stopped from outside,
    how many of its calls of [writeFileSync] it had made by then. *)
Record child_result := ChildResult {
  ending : child_end;
  stdout : string;
  stderr : string;
  killed : bool;
  writes_made : nat
}.

(** a command given to [child_process.exec]: it ends and the callback
    runs, once; or it has not ended, and the callback has not run; or the
    call itself throws. *)
Inductive command_run :=
| Ends (r : child_result)
| Runs
| Refused (err : thrown).

Record env := Env {
  uid : Z;                                   (* process.getuid() *)
  now : Z;                                   (* Date.now() *)
  dirname : string;                          (* __dirname *)
  kHomebrewChannelPackageId : string;        (* rootAppInfo.id *)
  serviceId : string;                        (* serviceInfo.id *)
  fetch : string -> string + fetch_response; (* inl: the request itself fails *)
  sha256_hex : string -> string;             (* createHash('sha256'), hex *)
  subscription : string -> value -> list bus_message;
  call_reply : string -> value -> list (string * value);
  child : string -> list string -> child_result;   (* execFile *)
  shell : string -> command_run;                   (* child_process.exec *)
  utf8 : string -> string;                   (* Buffer.prototype.toString() *)
  inspect : value -> string;                 (* how console.info prints a value *)
  denied : string -> bool;                   (* paths the process may not change *)
  patcher : Elevate.runtime                  (* what the patcher runs under *)
}.

Inductive event :=
| Respond (payload : value)                  (* message.respond(payload) *)
| Cancel                                     (* message.cancel({}) *)
| Fetch (url : string)
| Subscribe (remote : bool) (uri : string) (args : value)
| Unsubscribe (uri : string)                 (* req.cancel() *)
| Call (remote : bool) (uri : string) (args : value)
| Exec (file : string) (args : list string)
| Shell (command : string)
| Console (line : string).

Record world := World {
  files : gmap string string;
  trace : list event;                        (* oldest first *)
  idleTimeout : Z                            (* service.activityManager.idleTimeout *)
}.

(** [err.toString()]: for an [Error], name and message; for the payload of
    a failed bus call, a parsed JSON object, the text of every plain
    object, unless the payload has a field named [toString] of its own:
    that field is no function, and the call is a [TypeError] ([None]). *)
Definition toString (err : thrown) : option string :=
  match err with
  | JsError name message _ =>
      Some (if String.eqb name "" then message
            else if String.eqb message "" then name
            else name +:+ ": " +:+ message)
  | Rejected payload =>
      match Js.assoc "toString" payload with
      | Some _ => None
      | None => Some "[object Object]"
      end
  end.

Definition Error (message : string) : thrown := JsError "Error" message None.

(** A handler returns, throws, or waits for ever on a promise that is
    never settled. *)
Inductive outcome (A : Type) :=
| Returned (a : A) (w : world)
| Raised (e : thrown) (w : world)
| Pending (w : world).
Arguments Returned {A} a w.
Arguments Raised {A} e w.
Arguments Pending {A} w.

Definition M (A : Type) : Type := world -> outcome A.

Definition ret {A} (a : A) : M A := fun w => Returned a w.

Definition bind {A B} (m : M A) (k : A -> M B) : M B :=
  fun w => match m w with
           | Returned a w' => k a w'
           | Raised e w' => Raised e w'
           | Pending w' => Pending w'
           end.

Definition throw {A} (e : thrown) : M A := fun w => Raised e w.

(** [try { m } catch (err) { h err }] *)
Definition try_catch {A} (m : M A) (h : thrown -> M A) : M A :=
  fun w => match m w with
           | Raised e w' => h e w'
           | o => o
           end.

Definition final {A} (o : outcome A) : world :=
  match o with
  | Returned _ w => w
  | Raised _ w => w
  | Pending w => w
  end.

Declare Scope svc_scope.
Delimit Scope svc_scope with svc.
Notation "x <- m ;; k" := (bind m (fun x => k))
  (at level 100, m at next level, right associativity) : svc_scope.
Notation "m ;;; k" := (bind m (fun _ => k))
  (at level 100, right associativity) : svc_scope.
Local Open Scope svc_scope.

Definition emit (ev : event) : M unit :=
  fun w => Returned tt
    {| files := files w; trace := trace w ++ [ev]; idleTimeout := idleTimeout w |}.

Definition set_files (f : gmap string string -> gmap string string) : M unit :=
  fun w => Returned tt
    {| files := f (files w); trace := trace w; idleTimeout := idleTimeout w |}.

Definition set_idleTimeout (n : Z) : M unit :=
  fun w => Returned tt
    {| files := files w; trace := trace w; idleTimeout := n |}.

Definition read_files : M (gmap string string) :=
  fun w => Returned (files w) w.

Definition respond (payload : value) : M unit := emit (Respond payload).

(** a value in a template literal, or as the message of [new Error] *)
Definition template (v : value) : M string :=
  if Js.printable v then ret (Js.to_string v)
  else throw (JsError "TypeError" "Cannot convert object to primitive value" None).

(** *** The imports from the adapter *)

(** a call of a name imported from [./adapter]: the call of an unbound
    name is a [TypeError]. *)
Definition imported {A} (name : string) (impl : M A) : M A :=
  if Adapter.exported name then impl
  else throw (JsError "TypeError" (name +:+ " is not a function") None).

(** [asyncAccess] is imported by the service, but it is not among the
    exports of the adapter (which has [asyncStat]), so its call fails.  The
    body under the guard is the existence check that the specification
    describes for the adapter; it is not reached. *)
Definition asyncAccess (path : string) : M unit :=
  imported "asyncAccess"
    (fs <- read_files ;;
     if bool_decide (is_Some (fs !! path)) then ret tt
     else throw (JsError "Error" "ENOENT: no such file or directory" (Some "ENOENT"))).

Definition asyncWriteFile (e : env) (path contents : string) : M unit :=
  imported "asyncWriteFile"
    (if denied e path
     then throw (JsError "Error" "EACCES: permission denied" (Some "EACCES"))
     else set_files (insert path contents)).

Definition asyncUnlink (e : env) (path : string) : M unit :=
  imported "asyncUnlink"
    (fs <- read_files ;;
     if bool_decide (is_Some (fs !! path)) then
       if denied e path
       then throw (JsError "Error" "EACCES: permission denied" (Some "EACCES"))
       else set_files (delete path)
     else throw (JsError "Error" "ENOENT: no such file or directory" (Some "ENOENT"))).

(** the command as the error of a failed child names it: the file and its
    arguments, joined by blanks *)
Definition command_line (file : string) (args : list string) : string :=
  JsString.join " " (file :: args).

(** the message of the error with which [execFile] and [exec] call back:
    none exactly when the child exited with status 0. *)
Definition child_error (e : env) (cmd : string) (r : child_result) : option string :=
  let failed := "Command failed: " +:+ cmd +:+ String "010"%char (utf8 e (stderr r)) in
  match ending r with
  | Exited code => if (code =? 0)%Z then None else Some failed
  | Signalled _ => Some failed
  | Errored _ message _ => Some message
  end.

(** What a child started with [execFile] does to the files.  The program
    [elevate-service] beside the service is the patcher of this
    repository, embedded above.  A patcher that exited has made its run,
    to its end or to the statement that failed: the files are those
    [Elevate.main] leaves.  A patcher that was stopped has made the first
    of the calls of [writeFileSync] of that run; one that could not be
    started has made none.  The other program the service starts,
    [reboot], is the platform's and leaves the files of this model as
    they are. *)
Definition child_files (e : env) (file : string) (args : list string)
    (r : child_result) (fs : gmap string string) : gmap string string :=
  if String.eqb file (dirname e +:+ "/elevate-service") then
    let run :=
      Elevate.final (Elevate.main (patcher e) args (Elevate.World fs [] [] [])) in
    match ending r with
    | Exited _ => Elevate.files run
    | Signalled _ | Errored true _ _ =>
        Elevate.replay (patcher e) (firstn (writes_made r) (Elevate.writes run)) fs
    | Errored false _ _ => fs
    end
  else fs.
Arguments child_files : simpl never.

Definition asyncExecFile (e : env) (file : string) (args : list string) : M string :=
  imported "asyncExecFile"
    (emit (Exec file args) ;;;
     let r := child e file args in
     set_files (child_files e file args r) ;;;
     match child_error e (command_line file args) r with
     | None => ret (utf8 e (stdout r))
     | Some message => throw (Error message)
     end).

(** [createWriteStream(path)] truncates the file, the chunks of the body
    are appended as they arrive and [onProgress] runs for every report;
    an error of the body stream ends the copy and leaves what was
    written. *)
Definition download (e : env) (res : fetch_response) (path : string)
    (onProgress : Z -> M unit) : M unit :=
  imported "asyncPipeline"
    (if denied e path
     then throw (JsError "Error" "EACCES: permission denied" (Some "EACCES"))
     else
       set_files (insert path (String.concat "" (chunks res))) ;;;
       fold_right (fun p k => onProgress p ;;; k) (ret tt) (progress res) ;;;
       match stream_error res with
       | Some message => throw (Error message)
       | None => ret tt
       end).

(** *** The functions of the service *)

Definition runningAsRoot (e : env) : bool := (uid e =? 0)%Z.

(** [getInstallerService()]: whether the handle is the remote proxy *)
Definition getInstallerService (e : env) : bool := negb (runningAsRoot e).

(** own properties of [availableFlags] *)
Definition availableFlags : list (string * string) :=
  [("telnetDisabled", "webosbrew_telnet_disabled");
   ("failsafe", "webosbrew_failsafe");
   ("sshdEnabled", "webosbrew_sshd_enabled");
   ("blockUpdates", "webosbrew_block_updates")].

(** the properties an object literal inherits from [Object.prototype],
    each with the text a template literal prints for it *)
Definition Object_prototype : list (string * string) :=
  [("constructor", "function Object() { [native code] }");
   ("toString", "function toString() { [native code] }");
   ("toLocaleString", "function toLocaleString() { [native code] }");
   ("valueOf", "function valueOf() { [native code] }");
   ("hasOwnProperty", "function hasOwnProperty() { [native code] }");
   ("isPrototypeOf", "function isPrototypeOf() { [native code] }");
   ("propertyIsEnumerable", "function propertyIsEnumerable() { [native code] }");
   ("__defineGetter__", "function __defineGetter__() { [native code] }");
   ("__defineSetter__", "function __defineSetter__() { [native code] }");
   ("__lookupGetter__", "function __lookupGetter__() { [native code] }");
   ("__lookupSetter__", "function __lookupSetter__() { [native code] }");
   ("__proto__", "[object Object]")].

Fixpoint lookup (k : string) (table : list (string * string)) : option string :=
  match table with
  | [] => None
  | (k', v) :: rest => if String.eqb k' k then Some v else lookup k rest
  end.

(** [availableFlags[field]]: [None] is [undefined]; a property that is
    not the object's own is looked up in its prototype.  The result is
    given as [flagPath] prints it. *)
Definition flag_of_field (field : string) : option string :=
  match lookup field availableFlags with
  | Some flagName => Some flagName
  | None => lookup field Object_prototype
  end.

Definition asyncCall (e : env) (remote : bool) (uri : string) (args : value)
  : M value :=
  emit (Call remote uri args) ;;;
  let payload := call_reply e uri args in
  if Js.truthy (Js.prop "returnValue" (VObj payload))
  then ret (VObj payload)
  else throw (Rejected payload).

Definition createToast (e : env) (message : string) : M value :=
  asyncCall e false "luna://com.webos.notification/createToast"
    (VObj [("sourceId", VStr (serviceId e)); ("message", VStr message)]).

Definition hashFile (e : env) (filePath algorithm : string) : M string :=
  imported "asyncPipeline"
    (fs <- read_files ;;
     match fs !! filePath with
     | Some contents => ret (sha256_hex e contents)
     | None =>
         throw (JsError "Error" "ENOENT: no such file or directory" (Some "ENOENT"))
     end).

Definition elevateService (e : env) (pkg : string) : M unit :=
  if runningAsRoot e then
    emit (Console "Elevating service...") ;;;
    asyncExecFile e (dirname e +:+ "/elevate-service") [pkg] ;;;
    ret tt
  else
    emit (Console "Trying to elevate service without running as root. Skipping.").

Definition flagPath (flag : string) : string := "/var/luna/preferences/" +:+ flag.

Definition flagRead (flag : string) : M bool :=
  try_catch (asyncAccess (flagPath flag) ;;; ret true) (fun _ => ret false).

Definition has_code (code : string) (err : thrown) : bool :=
  match err with
  | JsError _ _ (Some c) => String.eqb c code
  | _ => false
  end.

Definition flagSet (e : env) (flag : string) (enabled : value) : M bool :=
  (if Js.truthy enabled then asyncWriteFile e (flagPath flag) "1"
   else try_catch (asyncUnlink e (flagPath flag))
          (fun err => if negb (has_code "ENOENT" err) then throw err else ret tt)) ;;;
  flagRead flag.

(** *** [installPackage] *)

Inductive settled :=
| Resolved (v : value)
| RejectedWith (err : thrown).

(** what the ['response'] listener does with one payload: settle the
    promise and cancel the subscription, go on listening, or fail on a
    property of [undefined] (the promise is then never settled). *)
Inductive reaction :=
| Settle (s : settled)
| Listen
| Uncaught.

(** [reject(new Error(`${code}: ${text}`))]; a value that cannot be
    converted makes the listener fail before the promise is settled *)
Definition rejection (code text : value) : reaction :=
  if Js.printable code && Js.printable text
  then Settle (RejectedWith
                 (Error (Js.to_string code +:+ ": " +:+ Js.to_string text)))
  else Uncaught.

Definition on_response (payload : value) : reaction :=
  match payload with
  | VUndefined | VNull => Uncaught
  | _ =>
      if Js.strict_eq (Js.prop "returnValue" payload) (VBool false) then
        rejection (Js.prop "errorCode" payload) (Js.prop "errorText" payload)
      else
        let details := Js.prop "details" payload in
        if Js.truthy details
           && negb (Js.strict_eq (Js.prop "errorCode" details) VUndefined) then
          rejection (Js.prop "errorCode" details) (Js.prop "reason" details)
        else if Js.strict_eq (Js.prop "statusValue" payload) (VNum 30) then
          match details with
          | VUndefined | VNull => Uncaught
          | _ => Settle (Resolved (Js.prop "packageId" details))
          end
        else Listen
  end.

(** the ['cancel'] listener: the error it rejects with, or none when the
    making of the error fails *)
Definition on_cancel (payload : value) : option thrown :=
  if Js.truthy payload && Js.truthy (Js.prop "errorText" payload)
  then if Js.printable (Js.prop "errorText" payload)
       then Some (Error (Js.to_string (Js.prop "errorText" payload)))
       else None
  else Some (Error "cancelled").

Definition install_uri : string := "luna://com.webos.appInstallService/dev/install".

(** the listeners of [installPackage] on what the subscription delivers
    while it stands; [req.cancel()] ends it. *)
Fixpoint listen (e : env) (msgs : list bus_message) : M value :=
  match msgs with
  | [] => fun w => Pending w
  | Response payload :: rest =>
      emit (Console ("appInstallService response: " +:+ inspect e payload)) ;;;
      match on_response payload with
      | Settle (Resolved v) => emit (Unsubscribe install_uri) ;;; ret v
      | Settle (RejectedWith err) => emit (Unsubscribe install_uri) ;;; throw err
      | Listen => listen e rest
      | Uncaught => fun w => Pending w
      end
  | Cancelled payload :: _ =>
      match on_cancel payload with
      | Some err => throw err
      | None => fun w => Pending w
      end
  end.

Definition installPackage (e : env) (filePath : string) : M value :=
  let args := VObj [("id", VStr "testing"); ("ipkUrl", VStr filePath);
                    ("subscribe", VBool true)] in
  emit (Subscribe (getInstallerService e) install_uri args) ;;;
  listen e (subscription e install_uri args).

(** *** [tryRespond] and the registered operations *)

(** [message.respond] and [message.cancel] hand a message to the bus and
    do not throw.  When [err.toString()] throws inside the [catch] block,
    nothing is sent from there; the [finally] block runs all the same and
    the promise of the handler is rejected with the [TypeError]. *)
Definition tryRespond (runner : M value) : M unit :=
  fun w =>
    match runner w with
    | Returned reply w1 =>
        (respond (Protocol.makeSuccess reply) ;;; emit Cancel) w1
    | Raised err w1 =>
        match toString err with
        | Some text =>
            (respond (Protocol.makeError text (VObj [])) ;;; emit Cancel) w1
        | None =>
            (emit Cancel ;;;
             throw (JsError "TypeError" "err.toString is not a function" None)) w1
        end
    | Pending w1 => Pending w1
    end.

Record InstallPayload := { ipkUrl : string; ipkHash : string }.

Definition targetPath (e : env) : string :=
  "/tmp/.hbchannel-incoming-" +:+ pretty (now e) +:+ ".ipk".

Definition status (text : string) : value := VObj [("statusText", VStr text)].

(** the handler of [install], first part: the download into the staging
    file *)
Definition download_package (e : env) (payload : InstallPayload) : M unit :=
  let targetPath := targetPath e in
  respond (status "Downloading…") ;;;
  emit (Fetch (ipkUrl payload)) ;;;
  res <- match fetch e (ipkUrl payload) with
         | inl message => throw (JsError "FetchError" message None)
         | inr res => ret res
         end ;;
  (if negb (ok res) then throw (Error (statusText res)) else ret tt) ;;;
  download e res targetPath
    (fun p => respond (VObj [("statusText", VStr "Downloading…");
                             ("progress", VNum p)])).

(** second part: the checksum *)
Definition verify_checksum (e : env) (payload : InstallPayload) : M unit :=
  respond (status "Verifying…") ;;;
  checksum <- hashFile e (targetPath e) "sha256" ;;
  if negb (String.eqb checksum (ipkHash payload))
  then throw (Error "Invalid file checksum") else ret tt.

(** the handler up to the package id that the platform reports *)
Definition install_until_reported (e : env) (payload : InstallPayload) : M value :=
  download_package e payload ;;;
  verify_checksum e payload ;;;
  respond (status "Installing…") ;;;
  installPackage e (targetPath e).

(** the handler of [install] from the reported package id on *)
Definition finish_install (e : env) (installedPackageId : value) : M value :=
  text <- template installedPackageId ;;
  createToast e ("Application installed: " +:+ text) ;;;
  (if Js.is_str (kHomebrewChannelPackageId e) installedPackageId then
     elevateService e (kHomebrewChannelPackageId e) ;;;
     set_idleTimeout 1 ;;;
     createToast e "Homebrew Channel update finished" ;;;
     ret tt
   else ret tt) ;;;
  ret (VObj [("statusText", VStr "Finished."); ("finished", VBool true)]).

Definition install (e : env) (payload : InstallPayload) : M value :=
  installedPackageId <- install_until_reported e payload ;;
  finish_install e installedPackageId.

(** [Promise.all] over computations that have all been started: every one
    runs, and the first failure is the result. *)
Fixpoint all {A} (ms : list (M A)) : M (list A) :=
  fun w =>
    match ms with
    | [] => Returned [] w
    | m :: rest =>
        match m w with
        | Returned a w1 =>
            match all rest w1 with
            | Returned l w2 => Returned (a :: l) w2
            | Raised err w2 => Raised err w2
            | Pending w2 => Pending w2
            end
        | Raised err w1 => Raised err (final (all rest w1))
        | Pending w1 =>
            match all rest w1 with
            | Raised err w2 => Raised err w2
            | o => Pending (final o)
            end
        end
    end.

(** [Object.fromEntries] *)
Definition fromEntries (entries : list (string * value)) : list (string * value) :=
  Js.spread [] entries.

Definition getConfiguration (e : env) : M value :=
  entries <- all (map (fun '(field, flagName) =>
                         b <- flagRead flagName ;; ret (field, VBool b))
                    availableFlags) ;;
  ret (VObj (Js.spread [("root", VBool (uid e =? 0)%Z)] (fromEntries entries))).

Definition setConfiguration (e : env) (payload : list (string * value)) : M value :=
  let selected :=
    omap (fun '(field, v) =>
            match flag_of_field field with
            | Some flagName => Some (field, flagName, v)
            | None => None
            end) payload in
  entries <- all (map (fun '(field, flagName, v) =>
                         b <- flagSet e flagName v ;; ret (field, VBool b))
                    selected) ;;
  ret (VObj (fromEntries entries)).

Definition reboot (e : env) : M value :=
  asyncExecFile e "reboot" [] ;;; ret VUndefined.

Definition checkRoot (e : env) : M value := ret (VBool (runningAsRoot e)).

(** [apps.find((app) => app.id === appId)]; [None] when an element is
    [null] and the callback fails. *)
Fixpoint find_app (appId : value) (apps : list value) : option value :=
  match apps with
  | [] => Some VUndefined
  | (VUndefined | VNull) :: _ => None
  | app :: rest =>
      if Js.strict_eq (Js.prop "id" app) appId then Some app
      else find_app appId rest
  end.

Definition getAppInfo (e : env) (id : value) : M value :=
  let appId := id in
  (if negb (Js.truthy appId) then throw (Error "missing `id` string field")
   else ret tt) ;;;
  appList <- asyncCall e (getInstallerService e)
               "luna://com.webos.applicationManager/dev/listApps" (VObj []) ;;
  appInfo <- match Js.prop "apps" appList with
             | VArr apps =>
                 match find_app appId apps with
                 | Some found => ret found
                 | None =>
                     throw (JsError "TypeError" "Cannot read properties of null" None)
                 end
             | _ => throw (JsError "TypeError" "find is not a function" None)
             end ;;
  (if negb (Js.truthy appInfo)
   then text <- template appId ;;
        throw (Error ("Invalid appId, or unsupported application type: " +:+ text))
   else ret tt) ;;;
  ret (VObj [("appId", appId); ("appInfo", appInfo)]).

Definition getDrmStatus (appId : value) : M value :=
  ret (VObj [("appId", appId); ("drmType", VStr "NCG DRM");
             ("installBasePath", VStr "/media/cryptofs");
             ("returnValue", VBool true); ("isTimeLimited", VBool false)]).

(** the requests of the operations registered through [tryRespond] *)
Inductive request :=
| Install (payload : InstallPayload)
| GetConfiguration
| SetConfiguration (payload : list (string * value))
| Reboot
| CheckRoot
| GetAppInfo (id : value)
| GetDrmStatus (appId : value).

Definition runner (e : env) (req : request) : M value :=
  match req with
  | Install payload => install e payload
  | GetConfiguration => getConfiguration e
  | SetConfiguration payload => setConfiguration e payload
  | Reboot => reboot e
  | CheckRoot => checkRoot e
  | GetAppInfo id => getAppInfo e id
  | GetDrmStatus appId => getDrmStatus appId
  end.

(** the handler registered for a request *)
Definition handle (e : env) (req : request) : M unit := tryRespond (runner e req).

(** *** [exec] *)

(** the [Error] object of a failed command, by its enumerable fields:
    Node makes it from the ending, or adds [cmd] to the error it got *)
Definition error_object (cmd : string) (r : child_result) : value :=
  match ending r with
  | Exited code =>
      VObj [("code", VNum code); ("killed", VBool (killed r)); ("signal", VNull);
            ("cmd", VStr cmd)]
  | Signalled signal =>
      VObj [("code", VNull); ("killed", VBool (killed r)); ("signal", VStr signal);
            ("cmd", VStr cmd)]
  | Errored _ _ fields => VObj (Js.assoc_set "cmd" (VStr cmd) fields)
  end.

Definition exec_response (e : env) (command : string) (r : child_result) : value :=
  VObj [("error", match child_error e command r with
                  | Some _ => error_object command r
                  | None => VNull
                  end);
        ("stdoutString", VStr (utf8 e (stdout r)));
        ("stdoutBytes", VStr (Base64.encode (stdout r)));
        ("stderrString", VStr (utf8 e (stderr r)));
        ("stderrBytes", VStr (Base64.encode (stderr r)))].

(** the handler of [exec]; [command] is the payload's field.  The only
    [message.respond] is in the callback of [child_process.exec], which
    runs when the command has ended. *)
Definition exec (e : env) (command : string) : M unit :=
  emit (Shell command) ;;;
  match shell e command with
  | Refused err => throw err
  | Runs => fun w => Pending w
  | Ends r =>
      let response := exec_response e command r in
      match child_error e command r with
      | Some message => respond (Protocol.makeError message response)
      | None => respond (Protocol.makeSuccess response)
      end
  end.

(** *** Properties of runs *)

(** [m] takes every world to one related to it by [R], however it ends. *)
Definition respects {A} (R : world -> world -> Prop) (m : M A) : Prop :=
  forall w, R w (final (m w)).

(** the events added are all of kind [P] *)
Definition emits_only (P : event -> Prop) (w w' : world) : Prop :=
  exists evs, trace w' = trace w ++ evs /\ Forall P evs.

(** no file is removed *)
Definition keeps_files (w w' : world) : Prop :=
  forall path, is_Some (files w !! path) -> is_Some (files w' !! path).

Definition keeps_idleTimeout (w w' : world) : Prop :=
  idleTimeout w' = idleTimeout w.

(** [w] after the events [evs] *)
Definition with_events (w : world) (evs : list event) : world :=
  {| files := files w; trace := trace w ++ evs; idleTimeout := idleTimeout w |}.

(** the response that reports a percentage of the download *)
Definition progress_event (p : Z) : event :=
  Respond (VObj [("statusText", VStr "Downloading…"); ("progress", VNum p)]).

(** the world after a download that is not cut short *)
Definition downloaded (e : env) (res : fetch_response) (w : world) : world :=
  {| files := <[targetPath e := String.concat "" (chunks res)]> (files w);
     trace := trace w ++ map progress_event (progress res);
     idleTimeout := idleTimeout w |}.

Definition is_envelope (v : value) : bool :=
  Protocol.is_success v || Protocol.is_error v.

(** what a runner sends on its own: no envelope and no cancellation *)
Definition not_final (ev : event) : Prop :=
  match ev with
  | Respond v => is_envelope v = false
  | Cancel => False
  | _ => True
  end.

(** no child process is started *)
Definition not_exec (ev : event) : Prop :=
  match ev with
  | Exec _ _ => False
  | _ => True
  end.

(** no request to the install endpoint of the platform *)
Definition not_install_call (ev : event) : Prop :=
  match ev with
  | Subscribe _ uri _ => uri <> install_uri
  | Call _ uri _ => uri <> install_uri
  | _ => True
  end.

(** The outcome of a self-install as the specification words it: the
    patcher is started with the application id and the idle timeout is 1. *)
Definition elevation (e : env) : event :=
  Exec (dirname e +:+ "/elevate-service") [kHomebrewChannelPackageId e].

Definition elevates (e : env) (w' : world) : Prop :=
  In (elevation e) (trace w') /\ idleTimeout w' = 1%Z.

(** the notification service accepts the toast with this message *)
Definition toast_delivered (e : env) (message : string) : Prop :=
  Js.truthy
    (Js.prop "returnValue"
       (VObj (call_reply e "luna://com.webos.notification/createToast"
                (VObj [("sourceId", VStr (serviceId e));
                       ("message", VStr message)])))) = true.

(** the patcher, started by the service, exits with status 0 *)
Definition patcher_succeeds (e : env) : Prop :=
  ending (child e (dirname e +:+ "/elevate-service") [kHomebrewChannelPackageId e])
  = Exited 0.

(** *** Sample inputs *)

Definition sample_response : fetch_response :=
  {| ok := true; statusText := "OK"; chunks := ["PK"; "G"];
     stream_error := None; progress := [50%Z; 100%Z] |}.

Definition reported (packageId : string) : list bus_message :=
  [Response (VObj [("statusValue", VNum 10)]);
   Response (VObj [("statusValue", VNum 30);
                   ("details", VObj [("packageId", VStr packageId)])])].

Definition sample_env (uid : Z) (installed : string) : env :=
  {| uid := uid;
     now := 1700000000000;
     dirname := "/media/developer/apps/usr/palm/services/org.webosbrew.hbchannel.service";
     kHomebrewChannelPackageId := "org.webosbrew.hbchannel";
     serviceId := "org.webosbrew.hbchannel.service";
     fetch := fun _ => inr sample_response;
     sha256_hex := fun contents => "sha256:" +:+ contents;
     subscription := fun _ _ => reported installed;
     call_reply := fun _ _ => [("returnValue", VBool true)];
     child := fun _ _ =>
       {| ending := Exited 0; stdout := ""; stderr := ""; killed := false; writes_made := 0 |};
     shell := fun _ =>
       Ends {| ending := Exited 1; stdout := "out"; stderr := "err"; killed := false; writes_made := 0 |};
     utf8 := fun bytes => bytes;
     inspect := fun _ => "{ ... }";
     denied := fun _ => false;
     patcher := Elevate.sample_runtime true |}.

Definition sample_world : world :=
  {| files := ∅; trace := []; idleTimeout := 5 |}.

Definition sample_payload (hash : string) : InstallPayload :=
  {| ipkUrl := "https://repo.example/app.ipk"; ipkHash := hash |}.

(** *** [spawn] *)

(** what the child of [spawn] emits, in order; the codes are numbers or
    [null] *)
Inductive child_event :=
| StdoutData (data : string)
| StderrData (data : string)
| Close (closeCode : value)
| Exit (exitCode : value).

(** [respond(event, args)] of the handler, for each listener *)
Definition spawn_response (e : env) (ev : child_event) : value :=
  match ev with
  | StdoutData data =>
      VObj (Js.spread [("event", VStr "stdoutData")]
              [("stdoutString", VStr (utf8 e data));
               ("stdoutBytes", VStr (Base64.encode data))])
  | StderrData data =>
      VObj (Js.spread [("event", VStr "stderrData")]
              [("stderrString", VStr (utf8 e data));
               ("stderrBytes", VStr (Base64.encode data))])
  | Close closeCode =>
      VObj (Js.spread [("event", VStr "close")] [("closeCode", closeCode)])
  | Exit exitCode =>
      VObj (Js.spread [("event", VStr "exit")] [("exitCode", exitCode)])
  end.

(** the handler of [spawn], with the listeners run on what the child
    emits *)
Definition spawn (e : env) (command : string) (emitted : list child_event) : M unit :=
  emit (Exec "/bin/sh" ["-c"; command]) ;;;
  fold_right (fun ev k => respond (spawn_response e ev) ;;; k) (ret tt) emitted.

(** *** Further properties of runs *)

(** the file at [path] is the same, present or absent *)
Definition agrees_at (path : string) (w w' : world) : Prop :=
  files w' !! path = files w !! path.

Definition same_files (w w' : world) : Prop := files w' = files w.

(** the operations that only read *)
Definition reads_only (req : request) : bool :=
  match req with
  | Install _ | SetConfiguration _ => false
  | _ => true
  end.

(** what the ['response'] listener of [installPackage] logs for a payload *)
Definition logged (e : env) (fields : list (string * value)) : event :=
  Console ("appInstallService response: " +:+ inspect e (VObj fields)).

(** a response that is no failure and not the final status: [returnValue]
    is not [false], there is no [details.errorCode], and [statusValue] is
    not 30 *)
Definition in_progress (fields : list (string * value)) : Prop :=
  Js.prop "returnValue" (VObj fields) <> VBool false /\
  (Js.truthy (Js.prop "details" (VObj fields)) = false \/
   Js.prop "errorCode" (Js.prop "details" (VObj fields)) = VUndefined) /\
  Js.prop "statusValue" (VObj fields) <> VNum 30.

(** an environment in which every request ends with the given response *)
Definition env_with_fetch (answer : string + fetch_response) : env :=
  {| uid := 0;
     now := 1700000000000;
     dirname := "/media/developer/apps/usr/palm/services/org.webosbrew.hbchannel.service";
     kHomebrewChannelPackageId := "org.webosbrew.hbchannel";
     serviceId := "org.webosbrew.hbchannel.service";
     fetch := fun _ => answer;
     sha256_hex := fun contents => "sha256:" +:+ contents;
     subscription := fun _ _ => reported "com.example.app";
     call_reply := fun _ _ =>
       [("returnValue", VBool true);
        ("apps", VArr [VObj [("id", VStr "com.example.one")];
                       VObj [("id", VStr "com.example.app"); ("title", VStr "App")]])];
     child := fun _ _ =>
       {| ending := Exited 0; stdout := ""; stderr := ""; killed := false; writes_made := 0 |};
     shell := fun _ =>
       Ends {| ending := Exited 0; stdout := ""; stderr := ""; killed := false; writes_made := 0 |};
     utf8 := fun bytes => bytes;
     inspect := fun _ => "{ ... }";
     denied := fun path => String.eqb path "/var/luna/preferences/webosbrew_failsafe";
     patcher := Elevate.sample_runtime true |}.

Definition not_found : fetch_response :=
  {| ok := false; statusText := "Not Found"; chunks := [];
     stream_error := None; progress := [] |}.


(** an environment in which every bus call is answered with the given
    payload and every command given to [exec] runs as given *)
Definition env_with_reply (reply : list (string * value)) (run : command_run) : env :=
  {| uid := 0;
     now := 1700000000000;
     dirname := "/media/developer/apps/usr/palm/services/org.webosbrew.hbchannel.service";
     kHomebrewChannelPackageId := "org.webosbrew.hbchannel";
     serviceId := "org.webosbrew.hbchannel.service";
     fetch := fun _ => inr sample_response;
     sha256_hex := fun contents => "sha256:" +:+ contents;
     subscription := fun _ _ => reported "com.example.app";
     call_reply := fun _ _ => reply;
     child := fun _ _ =>
       {| ending := Exited 0; stdout := ""; stderr := ""; killed := false; writes_made := 0 |};
     shell := fun _ => run;
     utf8 := fun bytes => bytes;
     inspect := fun _ => "{ ... }";
     denied := fun _ => false;
     patcher := Elevate.sample_runtime true |}.

End Service.

(** * Properties of the elevation patcher *)

Create HintDb untouched.

Module ElevateFacts.
Import Elevate.

Lemma run_respects_ret {A} R `{!Reflexive R} (a : A) : respects R (ret a).
Proof. intros w. simpl. reflexivity. Qed.

Lemma run_respects_raise {A} R `{!Reflexive R} e : respects R (@raise A e).
Proof. intros w. simpl. reflexivity. Qed.

Lemma run_respects_bind {A B} R `{!Transitive R} (m : M A) (k : A -> M B) :
  respects R m -> (forall a, respects R (k a)) -> respects R (bind m k).
Proof.
  intros Hm Hk w. unfold bind. specialize (Hm w).
  destruct (m w) as [a w1|e w1]; simpl in *.
  - etransitivity; [exact Hm|apply Hk].
  - exact Hm.
Qed.

Section Untouched.
Variable rt : runtime.
Variables path contents : string.

#[local] Instance untouched_refl : Reflexive (untouched rt path contents).
Proof.
  intros w H. split; [exact H|]. exists []. rewrite app_nil_r. auto.
Qed.

#[local] Instance untouched_trans : Transitive (untouched rt path contents).
Proof.
  intros w1 w2 w3 H12 H23 H.
  destruct (H12 H) as [H2 [ws [E2 F2]]].
  destruct (H23 H2) as [H3 [ws' [E3 F3]]].
  split; [exact H3|]. exists (ws ++ ws'). split.
  - rewrite E3, E2, app_assoc. reflexivity.
  - apply Forall_app. auto.
Qed.

Lemma untouched_console_info line :
  respects (untouched rt path contents) (console_info line).
Proof. intros w H. simpl. split; [exact H|]. exists []. rewrite app_nil_r. auto. Qed.

Lemma untouched_execFile file args :
  respects (untouched rt path contents) (execFile file args).
Proof. intros w H. simpl. split; [exact H|]. exists []. rewrite app_nil_r. auto. Qed.

Lemma untouched_isFile q : respects (untouched rt path contents) (isFile rt q).
Proof. intros w. simpl. reflexivity. Qed.

Lemma untouched_readFileSync q :
  respects (untouched rt path contents) (readFileSync rt q).
Proof.
  intros w. unfold readFileSync. destruct (files w !! realpath rt q); simpl; reflexivity.
Qed.

Lemma untouched_parse text : respects (untouched rt path contents) (parse rt text).
Proof.
  unfold parse. destruct (JSON_parse rt text);
    [apply run_respects_ret|apply run_respects_raise]; apply _.
Qed.

(** a write through a path that names another file *)
Lemma untouched_writeFileSync q data :
  realpath rt q <> realpath rt path ->
  respects (untouched rt path contents) (writeFileSync rt q data).
Proof.
  intros Hq w H. unfold writeFileSync.
  destruct data as [s|]; [|destruct (coerces_data rt)]; simpl;
    (split; [try rewrite lookup_insert_ne by exact Hq; exact H|]);
    eexists; (split; [reflexivity|]); repeat constructor; exact Hq.
Qed.

Lemma untouched_ret {A} (a : A) : respects (untouched rt path contents) (ret a).
Proof. apply run_respects_ret, _. Qed.

Lemma untouched_raise {A} e : respects (untouched rt path contents) (@raise A e).
Proof. apply run_respects_raise, _. Qed.

Lemma untouched_bind {A B} (m : M A) (k : A -> M B) :
  respects (untouched rt path contents) m ->
  (forall a, respects (untouched rt path contents) (k a)) ->
  respects (untouched rt path contents) (bind m k).
Proof. apply run_respects_bind, _. Qed.

Hint Resolve untouched_ret untouched_raise untouched_console_info
  untouched_execFile untouched_isFile untouched_readFileSync untouched_parse
  untouched_writeFileSync : untouched.

(** one step through a computation: a bind, or a case of its text *)
Ltac untouched_step :=
  match goal with
  | |- respects _ (bind _ _) => apply untouched_bind; [|intros ?]
  | |- respects _ (if ?b then _ else _) => destruct b
  | |- respects _ (match ?x with _ => _ end) => destruct x
  | |- respects _ _ => solve [auto with untouched]
  end.

Lemma untouched_patchServiceFile q appName serviceName :
  realpath rt q <> realpath rt path ->
  respects (untouched rt path contents) (patchServiceFile rt q appName serviceName).
Proof. intros Hq. unfold patchServiceFile. repeat untouched_step. Qed.

(** the creation of a permission file is guarded by [isFile]: where its
    path names the file at hand, that file is there and nothing is
    written *)
Lemma untouched_create_if_absent what q doc :
  respects (untouched rt path contents) (create_if_absent rt what q doc).
Proof.
  destruct (decide (realpath rt q = realpath rt path)) as [Heq|Hq].
  - intros w H. unfold create_if_absent, bind, isFile.
    rewrite bool_decide_eq_true_2 by (rewrite Heq, H; eauto).
    simpl. apply untouched_refl. exact H.
  - unfold create_if_absent. repeat untouched_step.
Qed.

Lemma untouched_push_if_missing doc key q note :
  respects (untouched rt path contents) (push_if_missing doc key q note).
Proof. unfold push_if_missing. repeat untouched_step. Qed.

Lemma untouched_ensure_wildcard doc key entry found pushing :
  respects (untouched rt path contents) (ensure_wildcard doc key entry found pushing).
Proof. unfold ensure_wildcard. repeat untouched_step. Qed.

Hint Resolve untouched_patchServiceFile untouched_create_if_absent
  untouched_push_if_missing untouched_ensure_wildcard : untouched.

Lemma untouched_patch_manifest q clientPermFile apiPermFile :
  realpath rt q <> realpath rt path ->
  respects (untouched rt path contents)
    (patch_manifest rt q clientPermFile apiPermFile).
Proof. intros Hq. unfold patch_manifest. repeat untouched_step. Qed.

Lemma untouched_patch_role q :
  realpath rt q <> realpath rt path ->
  respects (untouched rt path contents) (patch_role rt q).
Proof. intros Hq. unfold patch_role, amend_role. repeat untouched_step. Qed.

Hint Resolve untouched_patch_manifest untouched_patch_role : untouched.

(** the run is for a service and an application none of whose other
    paths names the file at hand *)
Variables serviceName appName : string.
Hypothesis others_differ :
  Forall (fun q => realpath rt q <> realpath rt path)
    (other_paths serviceName appName).

Lemma serviceFile_other :
  realpath rt (serviceFile_of serviceName) <> realpath rt path.
Proof. unfold other_paths in others_differ. rewrite !Forall_cons in others_differ. tauto. Qed.

Lemma manifestFile_other :
  realpath rt (manifestFile_of appName) <> realpath rt path.
Proof. unfold other_paths in others_differ. rewrite !Forall_cons in others_differ. tauto. Qed.

Lemma roleFile_other :
  realpath rt (roleFile_of serviceName) <> realpath rt path.
Proof. unfold other_paths in others_differ. rewrite !Forall_cons in others_differ. tauto. Qed.

Lemma legacyPubServiceFile_other :
  realpath rt (legacyPubServiceFile_of serviceName) <> realpath rt path.
Proof. unfold other_paths in others_differ. rewrite !Forall_cons in others_differ. tauto. Qed.

Lemma legacyPrvServiceFile_other :
  realpath rt (legacyPrvServiceFile_of serviceName) <> realpath rt path.
Proof. unfold other_paths in others_differ. rewrite !Forall_cons in others_differ. tauto. Qed.

Lemma legacyPrvRolesFile_other :
  realpath rt (legacyPrvRolesFile_of serviceName) <> realpath rt path.
Proof. unfold other_paths in others_differ. rewrite !Forall_cons in others_differ. tauto. Qed.

Hint Resolve serviceFile_other manifestFile_other roleFile_other
  legacyPubServiceFile_other legacyPrvServiceFile_other
  legacyPrvRolesFile_other : untouched.

Lemma untouched_patch_current :
  respects (untouched rt path contents) (patch_current rt serviceName appName).
Proof. unfold patch_current. repeat untouched_step. Qed.

Lemma untouched_patch_legacy :
  respects (untouched rt path contents) (patch_legacy rt serviceName).
Proof. unfold patch_legacy. repeat untouched_step. Qed.

Hint Resolve untouched_patch_current untouched_patch_legacy : untouched.

Lemma untouched_main argv :
  resolve_names argv = (serviceName, appName) ->
  respects (untouched rt path contents) (main rt argv).
Proof.
  intros Hnames. unfold main. rewrite Hnames.
  repeat untouched_step.
Qed.

End Untouched.

Example default_names : resolve_names [] =
  ("org.webosbrew.hbchannel.service", "org.webosbrew.hbchannel").
Proof. reflexivity. Qed.

Example bare_id_names : resolve_names ["org.webosbrew.hbchannel"] =
  ("org.webosbrew.hbchannel.service", "org.webosbrew.hbchannel").
Proof. reflexivity. Qed.

Example derived_appName : resolve_names ["com.example.app.service"] =
  ("com.example.app.service", "com.example.app").
Proof. reflexivity. Qed.

Example replace_first_only :
  JsString.replace "/usr/bin/a /usr/bin/b" "/usr/bin" "/opt" = "/opt/a /usr/bin/b".
Proof. reflexivity. Qed.

Example native_descriptor_stripped :
  JsString.replace native_descriptor
    ("/usr/bin/jailer -t native_devmode -i " +:+ "com.example.app"
     +:+ " -p /media/developer/apps/usr/palm/services/"
     +:+ "com.example.app.service" +:+ " ") ""
  = "Exec=/media/developer/apps/usr/palm/services/com.example.app.service/run".
Proof. reflexivity. Qed.

Lemma is_wildcard_permission : is_wildcard wildcard_permission = false.
Proof. reflexivity. Qed.

(** The check of [permissions] looks for the text ["*"]: a list of
    permission records never passes it, and gains one more record. *)
Lemma ensure_wildcard_appends fields key items entry found pushing w :
  Js.assoc key fields = Some (VArr items) ->
  existsb is_wildcard items = false ->
  exists w',
    ensure_wildcard (VObj fields) key entry found pushing w
    = Returned (VObj (Js.assoc_set key (VArr (items ++ [entry])) fields)) w'.
Proof.
  intros Hk Hnone. unfold ensure_wildcard. rewrite Hk, Hnone.
  unfold bind, console_info, ret. eexists. reflexivity.
Qed.

Lemma no_record_is_wildcard n :
  existsb is_wildcard (repeat wildcard_permission n) = false.
Proof. induction n as [|n IH]; simpl; [reflexivity|exact IH]. Qed.

Lemma repeat_snoc {A} (x : A) n : repeat x n ++ [x] = repeat x (S n).
Proof. induction n as [|n IH]; simpl; [reflexivity|]. rewrite IH. reflexivity. Qed.

(** C1 (the code falls short of the claim): a role document without the
    two wildcards gains exactly one of each; but a document that already
    has the wildcard name and [n] copies of the fully-open permission
    record comes out of every further amendment with one copy more (the
    wildcard name is not repeated), so a re-run does insert a duplicate
    into [permissions]. *)
Theorem role_amendment_repeats_permission w :
  (exists w1, amend_role role_bare w = Returned (role_after 1) w1) /\
  (forall n, exists w2, amend_role (role_after n) w = Returned (role_after (S n)) w2).
Proof.
  split; [eexists; reflexivity|].
  intros n. unfold amend_role, role_after, bind, ensure_wildcard. simpl.
  rewrite no_record_is_wildcard. unfold bind, console_info, ret.
  rewrite repeat_snoc. eexists. reflexivity.
Qed.

(** C2 (the code falls short of the claim): for a descriptor with the
    marker and no application or service name, the diagnostic is logged,
    and then [writeFileSync] is called on the descriptor with an unset
    datum: where the runtime coerces the datum the file is overwritten
    with the text "undefined" and a change is reported, elsewhere the
    call fails. *)
Theorem native_descriptor_without_names_is_written
    rt serviceFile original appName serviceName w :
  files w !! realpath rt serviceFile = Some original ->
  JsString.includes original "jailer" = true ->
  both_truthy appName serviceName = None ->
  let o := patchServiceFile rt serviceFile appName serviceName w in
  In "[!] Updating Native-Service failed! Didn't got Application or Service name."
     (console (final o)) /\
  writes (final o) = writes w ++ [(serviceFile, None)] /\
  (if coerces_data rt
   then o = Returned true (final o) /\
        files (final o) !! realpath rt serviceFile = Some "undefined"
   else exists msg, o = Raised (TypeError msg) (final o)).
Proof.
  intros Hfile Hmarker Hnames. cbv zeta.
  unfold patchServiceFile, bind, readFileSync. rewrite Hfile, Hmarker. simpl.
  rewrite Hnames. simpl. unfold writeFileSync. simpl.
  destruct (coerces_data rt); simpl.
  - split; [|split; [reflexivity|split; [reflexivity|apply lookup_insert_eq]]].
    rewrite !in_app_iff. simpl. tauto.
  - split; [|split; [reflexivity|eexists; reflexivity]].
    rewrite !in_app_iff. simpl. tauto.
Qed.

Lemma native_descriptor_without_names_is_written_witness :
  let w := sample_world {[ "/var/palm/ls2-dev/services/pub/com.example.app.service.service"
                           := native_descriptor ]} in
  let o := patchServiceFile (sample_runtime true)
             "/var/palm/ls2-dev/services/pub/com.example.app.service.service"
             None None w in
  o = Returned true (final o) /\
  files (final o) !! "/var/palm/ls2-dev/services/pub/com.example.app.service.service"
  = Some "undefined".
Proof.
  cbv zeta.
  exact (proj2 (proj2 (native_descriptor_without_names_is_written
           (sample_runtime true)
           "/var/palm/ls2-dev/services/pub/com.example.app.service.service"
           native_descriptor None None
           (sample_world {[ "/var/palm/ls2-dev/services/pub/com.example.app.service.service"
                            := native_descriptor ]})
           eq_refl eq_refl eq_refl))).
Defined.

(** the same through [main]: a legacy descriptor of a native service is
    overwritten and a rescan is started *)
Example legacy_native_descriptor_run :
  let w' :=
    final (main (sample_runtime true) ["com.example.app.service"]
             (sample_world
                {[ "/var/palm/ls2-dev/services/pub/com.example.app.service.service"
                   := native_descriptor ]})) in
  files w' !! "/var/palm/ls2-dev/services/pub/com.example.app.service.service"
  = Some "undefined" /\
  execs w' = [("ls-control", ["scan-services"])].
Proof. cbv zeta. split; vm_compute; reflexivity. Qed.

Lemma clientPermFile_in_dir serviceName :
  JsString.startsWith "/var/luna-service2-dev/client-permissions.d/"
    (clientPermFile_of serviceName) = true.
Proof. reflexivity. Qed.

Lemma apiPermFile_in_dir serviceName :
  JsString.startsWith "/var/luna-service2-dev/client-permissions.d/"
    (apiPermFile_of serviceName) = true.
Proof. reflexivity. Qed.

(** C7, as stated, fails: the manifest path is built from the
    application name as given, and for the service [x] with the
    application name [../client-permissions.d/x.root] it names the client
    permission file of [x]; that file exists before the run with the
    contents [{ }], the manifest step reads it, prints the document again
    and writes the file, which then holds [{}]. *)
Lemma aliased_manifest_counterexample :
  let argv := ["x"; "../client-permissions.d/x.root"] in
  realpath empty_object_runtime (manifestFile_of (snd (resolve_names argv)))
  = clientPermFile_of (fst (resolve_names argv)) /\
  files permitted_world !! clientPermFile_of "x" = Some "{ }" /\
  files (final (main empty_object_runtime argv permitted_world))
    !! clientPermFile_of "x" = Some "{}".
Proof. cbv zeta. repeat split; vm_compute; reflexivity. Qed.

(** C7, amended: a client or API permission file that exists before a
    run of the patcher, and that none of the other paths of the run (the
    descriptor, the manifest, the role file, the legacy descriptors and
    the legacy role file) names, holds the same contents after the run,
    whatever they are and however the run ends, and no call of
    [writeFileSync] of the run names it: the two files are written only
    when absent. *)
Theorem permission_files_write_once rt argv serviceName path contents w :
  path = clientPermFile_of serviceName \/ path = apiPermFile_of serviceName ->
  Forall (fun q => realpath rt q <> realpath rt path)
    (other_paths (fst (resolve_names argv)) (snd (resolve_names argv))) ->
  files w !! realpath rt path = Some contents ->
  files (final (main rt argv w)) !! realpath rt path = Some contents /\
  exists ws, writes (final (main rt argv w)) = writes w ++ ws /\
             Forall (fun wr => realpath rt (fst wr) <> realpath rt path) ws.
Proof.
  intros _ Hothers Hfile.
  apply (untouched_main rt path contents _ _ Hothers argv); [|exact Hfile].
  destruct (resolve_names argv); reflexivity.
Qed.

Lemma permission_files_write_once_witness :
  let fs : gmap string string :=
    {[ "/var/luna-service2-dev/services.d/org.webosbrew.hbchannel.service.service"
         := node_descriptor;
       "/var/luna-service2-dev/client-permissions.d/org.webosbrew.hbchannel.service.root.json"
         := "not even JSON" ]} in
  let w' := final (main (sample_runtime true) [] (sample_world fs)) in
  files w' !! "/var/luna-service2-dev/client-permissions.d/org.webosbrew.hbchannel.service.root.json"
  = Some "not even JSON" /\
  exists ws, writes w' = ws /\
             Forall (fun wr => normalize (fst wr) <>
                        "/var/luna-service2-dev/client-permissions.d/org.webosbrew.hbchannel.service.root.json")
               ws.
Proof.
  cbv zeta.
  exact (permission_files_write_once (sample_runtime true) []
           "org.webosbrew.hbchannel.service"
           (clientPermFile_of "org.webosbrew.hbchannel.service")
           "not even JSON"
           (sample_world
              {[ "/var/luna-service2-dev/services.d/org.webosbrew.hbchannel.service.service"
                   := node_descriptor;
                 "/var/luna-service2-dev/client-permissions.d/org.webosbrew.hbchannel.service.root.json"
                   := "not even JSON" ]})
           (or_introl eq_refl)
           ltac:(vm_compute; repeat constructor; discriminate)
           eq_refl).
Defined.

(** C8, as stated, fails: for the pair [com.example.app.service] /
    [com.example.app] the patched descriptor is not the original with
    the generic directory replaced by the directory of the named
    service. *)
Lemma named_service_directory_counterexample :
  let w := sample_world {[ "/var/luna-service2-dev/services.d/com.example.app.service.service"
                           := node_descriptor ]} in
  JsString.includes node_descriptor "jailer" = false /\
  files (final (patchServiceFile (sample_runtime true)
                  "/var/luna-service2-dev/services.d/com.example.app.service.service"
                  (Some "com.example.app") (Some "com.example.app.service") w))
    !! "/var/luna-service2-dev/services.d/com.example.app.service.service"
  <> Some (claimed_patch "com.example.app.service" node_descriptor).
Proof. cbv zeta. split; [reflexivity|]. vm_compute. discriminate. Qed.

(** C8, amended: for every service/application name pair and every
    descriptor without the marker, the patched contents are the original
    with the first occurrence of [/usr/bin] replaced by the fixed
    directory of the Homebrew Channel service, whatever names were
    given; a change is reported exactly when the contents changed.  For
    the default service name this is the directory of the named
    service. *)
Theorem node_descriptor_patch rt serviceFile original appName serviceName w :
  files w !! realpath rt serviceFile = Some original ->
  JsString.includes original "jailer" = false ->
  let patched := JsString.replace original "/usr/bin" hbchannel_service_dir in
  let o := patchServiceFile rt serviceFile appName serviceName w in
  files (final o) !! realpath rt serviceFile = Some patched /\
  o = Returned (negb (String.eqb patched original)) (final o) /\
  claimed_patch "org.webosbrew.hbchannel.service" original = patched.
Proof.
  intros Hfile Hmarker. cbv zeta.
  unfold patchServiceFile, bind, readFileSync. rewrite Hfile, Hmarker. simpl.
  destruct (String.eqb_spec
              (JsString.replace original "/usr/bin" hbchannel_service_dir) original)
    as [Heq|Hne]; simpl.
  - rewrite Heq at 1. auto.
  - split; [apply lookup_insert_eq|]. auto.
Qed.

Lemma node_descriptor_patch_witness :
  let w := sample_world {[ "/var/luna-service2-dev/services.d/com.example.app.service.service"
                           := node_descriptor ]} in
  let o := patchServiceFile (sample_runtime true)
             "/var/luna-service2-dev/services.d/com.example.app.service.service"
             (Some "com.example.app") (Some "com.example.app.service") w in
  files (final o) !! "/var/luna-service2-dev/services.d/com.example.app.service.service"
  = Some (JsString.replace node_descriptor "/usr/bin" hbchannel_service_dir).
Proof.
  cbv zeta.
  exact (proj1 (node_descriptor_patch (sample_runtime true)
           "/var/luna-service2-dev/services.d/com.example.app.service.service"
           node_descriptor (Some "com.example.app") (Some "com.example.app.service")
           (sample_world
              {[ "/var/luna-service2-dev/services.d/com.example.app.service.service"
                 := node_descriptor ]})
           eq_refl eq_refl)).
Defined.

End ElevateFacts.


(** * Further properties of the elevation patcher *)

Module ElevateMore.
Import Elevate.

(** ** Frames, for any preorder that the primitive steps respect *)

Section PatcherFrame.
Variable R : world -> world -> Prop.
Context {R_refl : Reflexive R} {R_trans : Transitive R}.
Variable rt : runtime.
Variable writable : string -> Prop.
Hypothesis R_console : forall line, respects R (console_info line).
Hypothesis R_write :
  forall path data, writable path -> respects R (writeFileSync rt path data).
Hypothesis R_execFile : forall file args, respects R (execFile file args).

Lemma frame_isFile path : respects R (isFile rt path).
Proof. intros w. apply R_refl. Qed.

Lemma frame_readFileSync path : respects R (readFileSync rt path).
Proof.
  intros w. unfold readFileSync. destruct (files w !! realpath rt path); apply R_refl.
Qed.

Lemma frame_parse text : respects R (parse rt text).
Proof. unfold parse. destruct (JSON_parse rt text); intros w; apply R_refl. Qed.

Ltac patcher_step :=
  match goal with
  | |- respects _ (bind _ _) => apply (ElevateFacts.run_respects_bind R); [|intros ?]
  | |- respects _ (ret _) => apply (ElevateFacts.run_respects_ret R)
  | |- respects _ (raise _) => apply (ElevateFacts.run_respects_raise R)
  | |- respects _ (console_info _) => apply R_console
  | |- respects _ (execFile _ _) => apply R_execFile
  | |- respects _ (isFile _ _) => apply frame_isFile
  | |- respects _ (readFileSync _ _) => apply frame_readFileSync
  | |- respects _ (parse _ _) => apply frame_parse
  | |- respects _ (writeFileSync _ _ _) => apply R_write; assumption
  | |- respects _ (if ?b then _ else _) => destruct b
  | |- respects _ (match ?x with _ => _ end) => destruct x
  end.

Lemma frame_patchServiceFile path appName serviceName :
  writable path -> respects R (patchServiceFile rt path appName serviceName).
Proof. intros Hp. unfold patchServiceFile. repeat patcher_step. Qed.

Lemma frame_create_if_absent what path doc :
  writable path -> respects R (create_if_absent rt what path doc).
Proof. intros Hp. unfold create_if_absent. repeat patcher_step. Qed.

Lemma frame_push_if_missing doc key path note :
  respects R (push_if_missing doc key path note).
Proof. unfold push_if_missing. repeat patcher_step. Qed.

Lemma frame_ensure_wildcard doc key entry found pushing :
  respects R (ensure_wildcard doc key entry found pushing).
Proof. unfold ensure_wildcard. repeat patcher_step. Qed.

Ltac patcher_block :=
  match goal with
  | |- respects _ (patchServiceFile _ _ _ _) => apply frame_patchServiceFile; assumption
  | |- respects _ (create_if_absent _ _ _ _) => apply frame_create_if_absent; assumption
  | |- respects _ (push_if_missing _ _ _ _) => apply frame_push_if_missing
  | |- respects _ (ensure_wildcard _ _ _ _ _) => apply frame_ensure_wildcard
  | _ => patcher_step
  end.

Lemma frame_patch_manifest path clientPermFile apiPermFile :
  writable path -> respects R (patch_manifest rt path clientPermFile apiPermFile).
Proof. intros Hp. unfold patch_manifest. cbv zeta. repeat patcher_block. Qed.

Lemma frame_patch_role path : writable path -> respects R (patch_role rt path).
Proof. intros Hp. unfold patch_role, amend_role. cbv zeta. repeat patcher_block. Qed.

Lemma frame_patch_current serviceName appName :
  Forall writable (artifact_paths serviceName appName) ->
  respects R (patch_current rt serviceName appName).
Proof.
  intros Hall. unfold artifact_paths in Hall.
  rewrite !Forall_cons in Hall. destruct Hall as (?&?&?&?&?&?&?&?&_).
  unfold patch_current. cbv zeta.
  repeat match goal with
         | |- respects _ (patch_manifest _ _ _ _) => apply frame_patch_manifest; assumption
         | |- respects _ (patch_role _ _) => apply frame_patch_role; assumption
         | _ => patcher_block
         end.
Qed.

Lemma frame_patch_legacy serviceName appName :
  Forall writable (artifact_paths serviceName appName) ->
  respects R (patch_legacy rt serviceName).
Proof.
  intros Hall. unfold artifact_paths in Hall.
  rewrite !Forall_cons in Hall. destruct Hall as (?&?&?&?&?&?&?&?&_).
  unfold patch_legacy. cbv zeta. repeat patcher_block.
Qed.

Lemma frame_main argv :
  Forall writable (artifact_paths (fst (resolve_names argv)) (snd (resolve_names argv))) ->
  respects R (main rt argv).
Proof.
  unfold main. destruct (resolve_names argv) as [serviceName appName]. simpl fst. simpl snd.
  intros Hall. cbv zeta.
  repeat match goal with
         | |- respects _ (patch_current _ _ _) => apply frame_patch_current; assumption
         | |- respects _ (patch_legacy _ _) =>
             apply (frame_patch_legacy serviceName appName); assumption
         | _ => patcher_step
         end.
Qed.

End PatcherFrame.

(** ** What a run leaves alone *)

Lemma agrees_at_refl path : Reflexive (agrees_at path).
Proof. intros w. reflexivity. Qed.

Lemma agrees_at_trans path : Transitive (agrees_at path).
Proof. intros w1 w2 w3 H12 H23. unfold agrees_at in *. congruence. Qed.

Lemma removes_nothing_refl : Reflexive removes_nothing.
Proof. intros w path H. exact H. Qed.

Lemma removes_nothing_trans : Transitive removes_nothing.
Proof. intros w1 w2 w3 H12 H23 path H. auto. Qed.

Lemma keeps_execs_refl : Reflexive keeps_execs.
Proof. intros w. reflexivity. Qed.

Lemma keeps_execs_trans : Transitive keeps_execs.
Proof. intros w1 w2 w3 H12 H23. unfold keeps_execs in *. congruence. Qed.

Lemma not_in_all_differ (f : string -> string) (file : string) (l : list string) :
  ~ In file (map f l) -> Forall (fun q => f q <> file) l.
Proof.
  intros H. apply List.Forall_forall. intros q Hq Heq. apply H.
  rewrite <- Heq. apply in_map. exact Hq.
Qed.

Lemma agrees_at_write file rt q data :
  realpath rt q <> file -> respects (agrees_at file) (writeFileSync rt q data).
Proof.
  intros Hq w. unfold agrees_at, writeFileSync.
  destruct data; [|destruct (coerces_data rt)]; simpl;
    try rewrite lookup_insert_ne by exact Hq; reflexivity.
Qed.

Lemma agrees_at_console file line : respects (agrees_at file) (console_info line).
Proof. intros w. reflexivity. Qed.

(** X1: a run of the patcher changes no file other than those that the
    paths it derives from the service and application names resolve to;
    every other file holds after the run what it held before, however the
    run ends. *)
Theorem main_touches_only_artifacts rt argv file w :
  ~ In file (map (realpath rt)
               (artifact_paths (fst (resolve_names argv)) (snd (resolve_names argv)))) ->
  files (final (main rt argv w)) !! file = files w !! file.
Proof.
  intros Hout.
  apply (@frame_main (agrees_at file) (agrees_at_refl file) (agrees_at_trans file)
           rt (fun q => realpath rt q <> file)).
  - apply agrees_at_console.
  - intros q data Hq. apply agrees_at_write. exact Hq.
  - intros cmd args w0. reflexivity.
  - apply not_in_all_differ. exact Hout.
Qed.

Lemma main_touches_only_artifacts_witness :
  let fs : gmap string string :=
    {[ "/var/luna-service2-dev/services.d/com.example.app.service.service"
         := node_descriptor;
       "/var/luna-service2-dev/services.d/other.service" := "Exec=/usr/bin/other" ]} in
  files (final (main (sample_runtime true) ["com.example.app.service"]
                  (sample_world fs)))
    !! "/var/luna-service2-dev/services.d/other.service"
  = Some "Exec=/usr/bin/other".
Proof.
  cbv zeta.
  exact (main_touches_only_artifacts (sample_runtime true) ["com.example.app.service"]
           "/var/luna-service2-dev/services.d/other.service"
           (sample_world
              {[ "/var/luna-service2-dev/services.d/com.example.app.service.service"
                   := node_descriptor;
                 "/var/luna-service2-dev/services.d/other.service"
                   := "Exec=/usr/bin/other" ]})
           ltac:(vm_compute; intuition discriminate)).
Defined.

Lemma removes_nothing_console line : respects removes_nothing (console_info line).
Proof. intros w path H. exact H. Qed.

Lemma removes_nothing_write rt q data :
  respects removes_nothing (writeFileSync rt q data).
Proof.
  intros w path H. unfold writeFileSync.
  destruct data; [|destruct (coerces_data rt)]; simpl; [| |exact H];
    (destruct (decide (realpath rt q = path)) as [->|Hne];
     [rewrite lookup_insert_eq; eauto
     |rewrite lookup_insert_ne by exact Hne; exact H]).
Qed.

Lemma replay_keeps_present rt calls fs path :
  is_Some (fs !! path) -> is_Some (replay rt calls fs !! path).
Proof.
  revert fs. induction calls as [|[q data] calls IH]; intros fs H; [exact H|].
  apply IH. unfold apply_write. simpl.
  destruct data as [s|]; [|destruct (coerces_data rt)]; [| |exact H];
    (destruct (decide (realpath rt q = path)) as [->|Hne];
     [rewrite lookup_insert_eq; eauto
     |rewrite lookup_insert_ne by exact Hne; exact H]).
Qed.

(** the run of the patcher on any arguments, as the control service needs
    it below *)
Lemma main_keeps_present rt argv : respects removes_nothing (main rt argv).
Proof.
  apply (@frame_main removes_nothing removes_nothing_refl removes_nothing_trans
           rt (fun _ => True)).
  - apply removes_nothing_console.
  - intros q data _. apply removes_nothing_write.
  - intros file args w0 path H. exact H.
  - apply List.Forall_forall. intros. exact I.
Qed.

(** X2: the patcher never removes a file: whatever exists before a run
    exists after it, however the run ends. *)
Theorem main_removes_nothing rt argv w path :
  is_Some (files w !! path) ->
  is_Some (files (final (main rt argv w)) !! path).
Proof.
  revert path.
  apply (@frame_main removes_nothing removes_nothing_refl removes_nothing_trans
           rt (fun _ => True)).
  - apply removes_nothing_console.
  - intros q data _. apply removes_nothing_write.
  - intros file args w0 path H. exact H.
  - apply List.Forall_forall. intros. exact I.
Qed.

Lemma main_removes_nothing_witness :
  is_Some
    (files (final (main (sample_runtime false) []
                     (sample_world
                        {[ "/var/palm/ls2-dev/services/pub/org.webosbrew.hbchannel.service.service"
                           := native_descriptor ]})))
     !! "/var/palm/ls2-dev/services/pub/org.webosbrew.hbchannel.service.service").
Proof.
  exact (main_removes_nothing (sample_runtime false) []
           (sample_world
              {[ "/var/palm/ls2-dev/services/pub/org.webosbrew.hbchannel.service.service"
                 := native_descriptor ]})
           "/var/palm/ls2-dev/services/pub/org.webosbrew.hbchannel.service.service"
           ltac:(vm_compute; eauto)).
Defined.

(** ** Changes and the rescan *)

Lemma bind_Returned {A B} (m : M A) (k : A -> M B) w b w' :
  bind m k w = Returned b w' ->
  exists a w1, m w = Returned a w1 /\ k a w1 = Returned b w'.
Proof.
  unfold bind. destruct (m w) as [a w1|e w1]; [|discriminate].
  intros H. eauto.
Qed.

Lemma accounted_ret acc : accounted_from acc (ret acc).
Proof.
  intros w b w' H. injection H as <- <-. split; [reflexivity|].
  exists []. rewrite app_nil_r. split; [reflexivity|]. tauto.
Qed.

Lemma accounted_silent {A} acc (m : M A) (k : A -> M bool) :
  silent m -> (forall a, accounted_from acc (k a)) -> accounted_from acc (bind m k).
Proof.
  intros Hm Hk w b w' H.
  apply bind_Returned in H as (a & w1 & H1 & H2).
  destruct (Hm _ _ _ H1) as [E1 W1]. destruct (Hk _ _ _ _ H2) as [E2 (ws & W2 & Hb)].
  split; [congruence|]. exists ws. rewrite W2, W1. auto.
Qed.

Lemma accounted_step acc (m : M bool) (k : bool -> M bool) :
  accounted m -> (forall c, accounted_from (acc || c) (k c)) ->
  accounted_from acc (bind m k).
Proof.
  intros Hm Hk w b w' H.
  apply bind_Returned in H as (c & w1 & H1 & H2).
  destruct (Hm _ _ _ H1) as [E1 (ws1 & W1 & Hc)].
  destruct (Hk _ _ _ _ H2) as [E2 (ws2 & W2 & Hb)].
  split; [congruence|]. exists (ws1 ++ ws2). split.
  - rewrite W2, W1, app_assoc. reflexivity.
  - rewrite Hb, orb_true_iff, Hc. split.
    + intros [[Ha|[Hf|H1']]|H2']; auto; try discriminate;
        right; intros E; apply app_eq_nil in E as [? ?]; contradiction.
    + intros [Ha|Hne]; auto.
      destruct ws1 as [|x ws1]; [right; exact Hne|left; right; right; discriminate].
Qed.

Lemma silent_ret {A} (a : A) : silent (ret a).
Proof. intros w a' w' H. injection H as <- <-. auto. Qed.

Lemma silent_console_info line : silent (console_info line).
Proof. intros w a w' H. inversion H; subst. simpl. auto. Qed.

Lemma silent_isFile rt path : silent (isFile rt path).
Proof. intros w a w' H. inversion H; subst. auto. Qed.

Lemma silent_readFileSync rt path : silent (readFileSync rt path).
Proof.
  intros w a w' H. unfold readFileSync in H.
  destruct (files w !! realpath rt path); [injection H as <- <-; auto|discriminate].
Qed.

Lemma silent_parse rt text : silent (parse rt text).
Proof.
  intros w a w' H. unfold parse in H.
  destruct (JSON_parse rt text); [injection H as <- <-; auto|discriminate].
Qed.

Lemma silent_bind {A B} (m : M A) (k : A -> M B) :
  silent m -> (forall a, silent (k a)) -> silent (bind m k).
Proof.
  intros Hm Hk w b w' H.
  apply bind_Returned in H as (a & w1 & H1 & H2).
  destruct (Hm _ _ _ H1) as [E1 W1]. destruct (Hk _ _ _ _ H2) as [E2 W2].
  split; congruence.
Qed.

Lemma silent_raise {A} e : silent (@raise A e).
Proof. intros w a w' H. discriminate. Qed.

Ltac silent_step :=
  match goal with
  | |- silent (bind _ _) => apply silent_bind; [|intros ?]
  | |- silent (ret _) => apply silent_ret
  | |- silent (raise _) => apply silent_raise
  | |- silent (console_info _) => apply silent_console_info
  | |- silent (isFile _ _) => apply silent_isFile
  | |- silent (readFileSync _ _) => apply silent_readFileSync
  | |- silent (parse _ _) => apply silent_parse
  | |- silent (if ?b then _ else _) => destruct b
  | |- silent (match ?x with _ => _ end) => destruct x
  end.

Lemma silent_push_if_missing doc key path note :
  silent (push_if_missing doc key path note).
Proof. unfold push_if_missing. repeat silent_step. Qed.

Lemma silent_ensure_wildcard doc key entry found pushing :
  silent (ensure_wildcard doc key entry found pushing).
Proof. unfold ensure_wildcard. repeat silent_step. Qed.

(** a write that returns is one call of [writeFileSync] *)
Lemma accounted_write acc rt path data :
  accounted_from acc (bind (writeFileSync rt path data) (fun _ => ret true)).
Proof.
  intros w b w' H. unfold bind, writeFileSync in H.
  destruct data; [|destruct (coerces_data rt)]; try discriminate;
    injection H as <- <-; simpl; (split; [reflexivity|]);
    eexists; (split; [reflexivity|]); split; auto; intros _; right; discriminate.
Qed.

Ltac accounted_step_tac :=
  match goal with
  | |- accounted_from _ (bind (writeFileSync _ _ _) _) => apply accounted_write
  | |- accounted_from _ (bind _ _) => apply accounted_silent; [|intros ?]
  | |- accounted_from ?acc (ret ?acc) => apply accounted_ret
  | |- accounted_from _ (ret _) => simpl; apply accounted_ret
  | |- accounted_from _ (if ?b then _ else _) => destruct b
  | |- silent (push_if_missing _ _ _ _) => apply silent_push_if_missing
  | |- silent (ensure_wildcard _ _ _ _ _) => apply silent_ensure_wildcard
  | |- silent _ => silent_step
  end.

Lemma accounted_patchServiceFile rt path appName serviceName :
  accounted (patchServiceFile rt path appName serviceName).
Proof. unfold accounted, patchServiceFile. repeat accounted_step_tac. Qed.

Lemma accounted_create_if_absent rt what path doc :
  accounted (create_if_absent rt what path doc).
Proof. unfold accounted, create_if_absent. repeat accounted_step_tac. Qed.

Lemma accounted_patch_manifest rt path clientPermFile apiPermFile :
  accounted (patch_manifest rt path clientPermFile apiPermFile).
Proof. unfold accounted, patch_manifest. cbv zeta. repeat accounted_step_tac. Qed.

Lemma accounted_patch_role rt path : accounted (patch_role rt path).
Proof.
  unfold accounted, patch_role, amend_role. cbv zeta. repeat accounted_step_tac.
Qed.

Ltac accounted_block :=
  match goal with
  | |- accounted_from _ (bind (patchServiceFile _ _ _ _) _) =>
      apply accounted_step; [apply accounted_patchServiceFile|intros ?]
  | |- accounted_from _ (bind (create_if_absent _ _ _ _) _) =>
      apply accounted_step; [apply accounted_create_if_absent|intros ?]
  | |- accounted_from _ (bind (if _ then patch_manifest _ _ _ _ else _) _) =>
      apply accounted_step;
      [match goal with |- accounted (if ?b then _ else _) => destruct b end;
       [apply accounted_patch_manifest|apply accounted_ret]|intros ?]
  | |- accounted_from _ (bind (if _ then patch_role _ _ else _) _) =>
      apply accounted_step;
      [match goal with |- accounted (if ?b then _ else _) => destruct b end;
       [apply accounted_patch_role|apply accounted_ret]|intros ?]
  | _ => accounted_step_tac
  end.

Lemma accounted_patch_current rt serviceName appName :
  accounted (patch_current rt serviceName appName).
Proof.
  unfold accounted, patch_current. cbv zeta. repeat accounted_block.
Qed.

Lemma accounted_patch_legacy rt serviceName :
  accounted (patch_legacy rt serviceName).
Proof.
  unfold accounted, patch_legacy. cbv zeta.
  do 3 accounted_block.
  apply accounted_silent; [apply silent_isFile|intros hasRoles].
  apply accounted_step; [|intros ?; simpl; apply accounted_ret].
  destruct hasRoles; [|apply accounted_ret].
  unfold accounted. repeat accounted_step_tac.
Qed.

(** X3: when a run of the patcher returns, it reports a change exactly
    when it has called [writeFileSync] at least once, and it has started
    the rescan of the service registry, as its last act, exactly in that
    case; it starts no other command. *)
Theorem main_rescans_iff_written rt argv w configChanged w' :
  main rt argv w = Returned configChanged w' ->
  (exists ws, writes w' = writes w ++ ws /\ (configChanged = true <-> ws <> [])) /\
  execs w' = execs w ++ (if configChanged then [rescan] else []).
Proof.
  unfold main. destruct (resolve_names argv) as [serviceName appName].
  intros H.
  apply bind_Returned in H as (hasService & w1 & H1 & H).
  apply bind_Returned in H as (c1 & w2 & H2 & H).
  apply bind_Returned in H as (hasLegacy & w3 & H3 & H).
  apply bind_Returned in H as (c2 & w4 & H4 & H).
  apply bind_Returned in H as ([] & w5 & H5 & H).
  unfold ret in H. injection H as Hc Hw. subst configChanged w5.
  unfold isFile in H1, H3.
  injection H1 as Hs Hw. subst hasService w1.
  injection H3 as Hl Hw. subst hasLegacy w3.
  assert (A1 : accounted (if bool_decide (is_Some (files w !! realpath rt (serviceFile_of serviceName)))
                          then patch_current rt serviceName appName else ret false)).
  { match goal with |- accounted (if ?b then _ else _) => destruct b end;
      [apply accounted_patch_current|apply accounted_ret]. }
  assert (A2 : accounted (if bool_decide (is_Some (files w2 !! realpath rt (legacyPubServiceFile_of serviceName)))
                          then patch_legacy rt serviceName else ret false)).
  { match goal with |- accounted (if ?b then _ else _) => destruct b end;
      [apply accounted_patch_legacy|apply accounted_ret]. }
  destruct (A1 _ _ _ H2) as [E1 (ws1 & W1 & B1)].
  destruct (A2 _ _ _ H4) as [E2 (ws2 & W2 & B2)].
  assert (W5 : writes w' = writes w4 /\
               execs w' = execs w4 ++ (if c1 || c2 then [rescan] else [])).
  { destruct (c1 || c2); unfold bind, console_info, execFile in H5;
      inversion H5; subst; simpl; rewrite ?app_nil_r; auto. }
  destruct W5 as [W5 E5]. split.
  - exists (ws1 ++ ws2). split; [rewrite W5, W2, W1, app_assoc; reflexivity|].
    rewrite orb_true_iff, B1, B2. split.
    + intros [[?|Hn]|[?|Hn]]; try discriminate;
        intros E; apply app_eq_nil in E as [? ?]; contradiction.
    + intros Hne. destruct ws1; [right; right; exact Hne|left; right; discriminate].
  - rewrite E5, E2, E1. reflexivity.
Qed.

Lemma main_rescans_iff_written_witness :
  execs (final (main (sample_runtime true) ["com.example.app.service"]
                  node_service_world))
  = [rescan].
Proof.
  refine (proj2 (main_rescans_iff_written (sample_runtime true)
                   ["com.example.app.service"] node_service_world true
                   (final (main (sample_runtime true) ["com.example.app.service"]
                             node_service_world)) _)).
  vm_compute. reflexivity.
Defined.

Lemma bind_Raised {A B} (m : M A) (k : A -> M B) w e w' :
  bind m k w = Raised e w' ->
  m w = Raised e w' \/ exists a w1, m w = Returned a w1 /\ k a w1 = Raised e w'.
Proof.
  unfold bind. destruct (m w) as [a w1|e1 w1]; intros H; [right; eauto|left].
  injection H as -> ->. reflexivity.
Qed.

Lemma patch_current_keeps_execs rt serviceName appName :
  respects keeps_execs (patch_current rt serviceName appName).
Proof.
  apply (@frame_patch_current keeps_execs keeps_execs_refl keeps_execs_trans
           rt (fun _ => True)).
  - intros line w. reflexivity.
  - intros q data _ w. unfold keeps_execs, writeFileSync.
    destruct data; [|destruct (coerces_data rt)]; reflexivity.
  - apply List.Forall_forall. intros. exact I.
Qed.

Lemma patch_legacy_keeps_execs rt serviceName :
  respects keeps_execs (patch_legacy rt serviceName).
Proof.
  apply (@frame_patch_legacy keeps_execs keeps_execs_refl keeps_execs_trans
           rt (fun _ => True)) with (appName := "").
  - intros line w. reflexivity.
  - intros q data _ w. unfold keeps_execs, writeFileSync.
    destruct data; [|destruct (coerces_data rt)]; reflexivity.
  - apply List.Forall_forall. intros. exact I.
Qed.

(** X4: a run of the patcher that fails (malformed JSON in the manifest
    or the role file, a document of the wrong shape, a refused write)
    has started no command: the rescan is left out, also when files were
    already rewritten before the failure. *)
Theorem failed_run_starts_no_rescan rt argv w err w' :
  main rt argv w = Raised err w' -> execs w' = execs w.
Proof.
  unfold main. destruct (resolve_names argv) as [serviceName appName].
  intros H.
  apply bind_Raised in H as [H|(hasService & w1 & H1 & H)]; [discriminate H|].
  unfold isFile in H1. injection H1 as Hs Hw. subst hasService w1.
  assert (K1 : forall w0, keeps_execs w0
                 (final ((if bool_decide (is_Some (files w !! realpath rt (serviceFile_of serviceName)))
                          then patch_current rt serviceName appName else ret false) w0))).
  { intros w0. match goal with |- context [if ?b then _ else _] => destruct b end;
      [apply patch_current_keeps_execs|reflexivity]. }
  assert (K2 : forall (f : gmap string string) w0, keeps_execs w0
                 (final ((if bool_decide (is_Some (f !! realpath rt (legacyPubServiceFile_of serviceName)))
                          then patch_legacy rt serviceName else ret false) w0))).
  { intros f w0. match goal with |- context [if ?b then _ else _] => destruct b end;
      [apply patch_legacy_keeps_execs|reflexivity]. }
  apply bind_Raised in H as [H|(c1 & w2 & H2 & H)].
  { specialize (K1 w). rewrite H in K1. exact K1. }
  specialize (K1 w). rewrite H2 in K1. simpl in K1.
  apply bind_Raised in H as [H|(hasLegacy & w3 & H3 & H)]; [discriminate H|].
  unfold isFile in H3. injection H3 as Hl Hw. subst hasLegacy w3.
  apply bind_Raised in H as [H|(c2 & w4 & H4 & H)].
  { specialize (K2 (files w2) w2). rewrite H in K2. unfold keeps_execs in *. simpl in K2.
    congruence. }
  apply bind_Raised in H as [H|(u & w5 & H5 & H)]; [|discriminate H].
  destruct (c1 || c2); unfold bind, console_info, execFile in H; discriminate H.
Qed.

Lemma failed_run_starts_no_rescan_witness :
  execs (final (main (sample_runtime true) ["com.example.app.service"]
                  (manifest_world "{")))
  = [].
Proof.
  refine (failed_run_starts_no_rescan (sample_runtime true)
            ["com.example.app.service"] (manifest_world "{") SyntaxError
            (final (main (sample_runtime true) ["com.example.app.service"]
                      (manifest_world "{"))) _).
  vm_compute. reflexivity.
Defined.

(** ** Names *)

Lemma split_nonempty sep s : JsString.split sep s <> [].
Proof.
  destruct s as [|c s]; simpl; [discriminate|].
  destruct (Ascii.eqb c sep); [discriminate|].
  destruct (JsString.split sep s); discriminate.
Qed.

Lemma split_app_sep sep a b :
  JsString.split sep (a +:+ String sep b) = JsString.split sep a ++ JsString.split sep b.
Proof.
  induction a as [|c a IH]; simpl.
  - rewrite Ascii.eqb_refl. reflexivity.
  - destruct (Ascii.eqb c sep); [rewrite IH; reflexivity|].
    rewrite IH. pose proof (split_nonempty sep a) as Hne.
    destruct (JsString.split sep a); [contradiction|reflexivity].
Qed.

Lemma split_without_sep sep s :
  JsString.includes s (String sep EmptyString) = false -> JsString.split sep s = [s].
Proof.
  induction s as [|c s IH]; simpl; [reflexivity|].
  rewrite (Ascii.eqb_sym sep c).
  destruct (Ascii.eqb c sep); [discriminate|].
  intros H. rewrite (IH H). reflexivity.
Qed.

(** joining the pieces of a split gives the text back *)
Lemma join_split sep s :
  JsString.join (String sep EmptyString) (JsString.split sep s) = s.
Proof.
  induction s as [|c s IH]; simpl; [reflexivity|].
  destruct (Ascii.eqb_spec c sep) as [->|Hne].
  - pose proof (split_nonempty sep s) as Hs.
    destruct (JsString.split sep s) as [|w ws] eqn:E; [contradiction|].
    simpl in *. rewrite IH. reflexivity.
  - pose proof (split_nonempty sep s) as Hs.
    destruct (JsString.split sep s) as [|w ws] eqn:E; [contradiction|].
    destruct ws as [|w' ws]; simpl in *; rewrite <- IH; reflexivity.
Qed.

(** X5: for a service name made of an application id, a dot and a last
    segment without a dot, and given alone on the command line, the
    application name defaults to the part before the last dot (unless the
    argument is the bare id of the Homebrew Channel); the service name is
    the argument as given. *)
Theorem appName_defaults_to_prefix app seg :
  JsString.includes seg "." = false ->
  app +:+ "." +:+ seg <> "org.webosbrew.hbchannel" ->
  resolve_names [app +:+ "." +:+ seg] = (app +:+ "." +:+ seg, app).
Proof.
  intros Hseg Hbare. unfold resolve_names.
  destruct (String.eqb_spec (app +:+ "." +:+ seg) "org.webosbrew.hbchannel");
    [contradiction|].
  f_equal. unfold default_appName.
  change (app +:+ "." +:+ seg) with (app +:+ String "."%char seg).
  rewrite split_app_sep, (split_without_sep _ _ Hseg), removelast_last.
  apply (join_split "."%char).
Qed.

Lemma appName_defaults_to_prefix_witness :
  resolve_names ["tv.example.player" +:+ "." +:+ "service"]
  = ("tv.example.player" +:+ "." +:+ "service", "tv.example.player").
Proof.
  exact (appName_defaults_to_prefix "tv.example.player" "service" eq_refl
           ltac:(discriminate)).
Defined.

(** ** Descriptors that need no patch *)

Lemma replace_absent s pat rep :
  JsString.includes s pat = false -> JsString.replace s pat rep = s.
Proof.
  induction s as [|c s IH]; simpl.
  - destruct (JsString.startsWith pat ""); [discriminate|reflexivity].
  - destruct (JsString.startsWith pat (String c s)); [discriminate|].
    intros H. rewrite (IH H). reflexivity.
Qed.

(** X6: a descriptor that holds neither the sandbox marker nor the generic
    binary directory is left as it is: no call of [writeFileSync], no
    change reported, whatever names are given. *)
Theorem plain_descriptor_is_left_alone rt serviceFile original appName serviceName w :
  files w !! realpath rt serviceFile = Some original ->
  JsString.includes original "jailer" = false ->
  JsString.includes original "/usr/bin" = false ->
  exists w', patchServiceFile rt serviceFile appName serviceName w = Returned false w' /\
             files w' = files w /\ writes w' = writes w.
Proof.
  intros Hfile Hmarker Hbin.
  unfold patchServiceFile, bind, readFileSync. rewrite Hfile, Hmarker. simpl.
  rewrite (replace_absent _ _ _ Hbin). unfold strict_neq.
  rewrite String.eqb_refl. simpl. eexists. split; [reflexivity|]. auto.
Qed.

Lemma plain_descriptor_is_left_alone_witness :
  exists w',
    patchServiceFile (sample_runtime true) "/d.service" None None
      (sample_world (<["/d.service" := "Exec=/opt/bin/run"]> ∅))
    = Returned false w' /\
    files w' = <["/d.service" := "Exec=/opt/bin/run"]> ∅ /\ writes w' = [].
Proof.
  exact (plain_descriptor_is_left_alone (sample_runtime true) "/d.service"
           "Exec=/opt/bin/run" None None
           (sample_world (<["/d.service" := "Exec=/opt/bin/run"]> ∅))
           eq_refl eq_refl eq_refl).
Defined.

(** ** Amendments that are not repeated *)

Lemma assoc_assoc_set k v fields : Js.assoc k (Js.assoc_set k v fields) = Some v.
Proof.
  induction fields as [|[k' v'] rest IH]; simpl.
  - rewrite String.eqb_refl. reflexivity.
  - destruct (String.eqb k' k) eqn:E; simpl.
    + rewrite String.eqb_refl. reflexivity.
    + rewrite E. exact IH.
Qed.

Lemma existsb_snoc {A} (f : A -> bool) l x :
  f x = true -> existsb f (l ++ [x]) = true.
Proof. intros H. rewrite existsb_app. simpl. rewrite H. apply orb_true_iff. auto. Qed.

(** X7: the manifest amendment does not repeat itself: on a document that
    one amendment for a path has returned, a further amendment for the same
    path returns the same document and logs nothing, so a listed
    permission file is not listed twice. *)
Theorem push_if_missing_once doc key path note w doc1 w1 :
  push_if_missing doc key path note w = Returned doc1 w1 ->
  forall note' w2, push_if_missing doc1 key path note' w2 = Returned doc1 w2.
Proof.
  unfold push_if_missing. intros H note' w2.
  destruct doc as [| | | | |items|fields]; try discriminate H;
    try (injection H as <- _; reflexivity).
  destruct (Js.assoc key fields) as [v|] eqn:Hk.
  - destruct (Js.truthy v) eqn:Ht.
    + destruct v as [| | | |t|items|fs]; try discriminate H.
      * destruct (JsString.includes t path) eqn:Hi; [|discriminate H].
        injection H as <- _. rewrite Hk, Ht, Hi. reflexivity.
      * destruct (existsb (Js.is_str path) items) eqn:He.
        -- injection H as <- _. rewrite Hk. simpl. rewrite He. reflexivity.
        -- unfold bind, console_info, ret in H. injection H as <- _.
           rewrite assoc_assoc_set. simpl.
           rewrite existsb_snoc; [reflexivity|]. simpl. apply String.eqb_refl.
    + injection H as <- _. rewrite Hk, Ht. reflexivity.
  - injection H as <- _. rewrite Hk. reflexivity.
Qed.

Lemma push_if_missing_once_witness :
  push_if_missing
    (VObj [("id", VStr "com.example.app");
           ("clientPermissionFiles", VArr [VStr "/a.json"; VStr "/b.json"])])
    "clientPermissionFiles" "/b.json" "adding" (sample_world ∅)
  = Returned
      (VObj [("id", VStr "com.example.app");
             ("clientPermissionFiles", VArr [VStr "/a.json"; VStr "/b.json"])])
      (sample_world ∅).
Proof.
  exact (push_if_missing_once
           (VObj [("id", VStr "com.example.app");
                  ("clientPermissionFiles", VArr [VStr "/a.json"])])
           "clientPermissionFiles" "/b.json" "adding" (sample_world ∅)
           (VObj [("id", VStr "com.example.app");
                  ("clientPermissionFiles", VArr [VStr "/a.json"; VStr "/b.json"])])
           _ eq_refl "adding" (sample_world ∅)).
Defined.

(** X8: the check of [allowedNames] does not repeat itself either, for any
    role document: once an amendment with the wildcard name has returned,
    a further one returns the same document (and logs that the wildcard
    is there). *)
Theorem wildcard_name_once doc key found pushing w doc1 w1 :
  ensure_wildcard doc key (VStr "*") found pushing w = Returned doc1 w1 ->
  forall w2, exists w3,
    ensure_wildcard doc1 key (VStr "*") found pushing w2 = Returned doc1 w3 /\
    console w3 = console w2 ++ [found].
Proof.
  unfold ensure_wildcard. intros H w2.
  destruct doc as [| | | | |items|fields]; try discriminate H.
  destruct (Js.assoc key fields) as [v|] eqn:Hk; [|discriminate H].
  destruct v as [| | | |t|items|fs]; try discriminate H.
  destruct (existsb is_wildcard items) eqn:He;
    unfold bind, console_info, ret in H; injection H as <- _.
  - rewrite Hk, He. unfold bind, console_info, ret. eexists. split; reflexivity.
  - rewrite assoc_assoc_set, existsb_snoc by reflexivity.
    unfold bind, console_info, ret. eexists. split; reflexivity.
Qed.

Lemma wildcard_name_once_witness :
  exists w3,
    ensure_wildcard
      (VObj [("allowedNames", VArr [VStr "com.example.app.service"; VStr "*"])])
      "allowedNames" (VStr "*") "found" "pushing" (sample_world ∅)
    = Returned
        (VObj [("allowedNames", VArr [VStr "com.example.app.service"; VStr "*"])]) w3 /\
    console w3 = ["found"].
Proof.
  exact (wildcard_name_once
           (VObj [("allowedNames", VArr [VStr "com.example.app.service"])])
           "allowedNames" "found" "pushing" (sample_world ∅)
           (VObj [("allowedNames", VArr [VStr "com.example.app.service"; VStr "*"])])
           _ eq_refl (sample_world ∅)).
Defined.

(** ** The permission files a run creates *)

Lemma respects_Returned {A} R (m : M A) w a w1 :
  respects R m -> m w = Returned a w1 -> R w w1.
Proof. intros Hm E. specialize (Hm w). rewrite E in Hm. exact Hm. Qed.

Lemma append_inv_head a b c : a +:+ b = a +:+ c -> b = c.
Proof. induction a as [|x a IH]; simpl; [auto|]. intros H. injection H as H. auto. Qed.

Lemma create_if_absent_creates rt what path doc w b w1 :
  files w !! realpath rt path = None ->
  create_if_absent rt what path doc w = Returned b w1 ->
  files w1 !! realpath rt path = Some (JSON_stringify rt doc).
Proof.
  intros Habs. unfold create_if_absent, bind, isFile.
  rewrite bool_decide_eq_false_2 by (rewrite Habs; intros [x Hx]; discriminate Hx).
  simpl. intros H. injection H as _ <-. simpl. apply lookup_insert_eq.
Qed.

(** a step that writes through [q] only leaves the file of another path
    as it is *)
Lemma patchServiceFile_agrees rt q appName serviceName file :
  realpath rt q <> file ->
  respects (agrees_at file) (patchServiceFile rt q appName serviceName).
Proof.
  intros Hq.
  apply (@frame_patchServiceFile (agrees_at file) (agrees_at_refl file)
           (agrees_at_trans file) rt (fun p => realpath rt p <> file)).
  - apply agrees_at_console.
  - intros p data Hp. apply agrees_at_write. exact Hp.
  - exact Hq.
Qed.

Lemma create_if_absent_agrees rt what q doc file :
  realpath rt q <> file ->
  respects (agrees_at file) (create_if_absent rt what q doc).
Proof.
  intros Hq.
  apply (@frame_create_if_absent (agrees_at file) (agrees_at_refl file)
           (agrees_at_trans file) rt (fun p => realpath rt p <> file)).
  - apply agrees_at_console.
  - intros p data Hp. apply agrees_at_write. exact Hp.
  - exact Hq.
Qed.

(** the block for the current layout creates the two permission files,
    when their paths name two files that no other path of the run names *)
Lemma patch_current_creates rt serviceName appName w c w' :
  patch_current rt serviceName appName w = Returned c w' ->
  files w !! realpath rt (clientPermFile_of serviceName) = None ->
  files w !! realpath rt (apiPermFile_of serviceName) = None ->
  realpath rt (clientPermFile_of serviceName)
  <> realpath rt (apiPermFile_of serviceName) ->
  Forall (fun q => realpath rt q <> realpath rt (clientPermFile_of serviceName))
    (other_paths serviceName appName) ->
  Forall (fun q => realpath rt q <> realpath rt (apiPermFile_of serviceName))
    (other_paths serviceName appName) ->
  files w' !! realpath rt (clientPermFile_of serviceName)
  = Some (JSON_stringify rt (VObj [(serviceName +:+ "*", VArr [VStr "all"])])) /\
  files w' !! realpath rt (apiPermFile_of serviceName)
  = Some (JSON_stringify rt (VObj [("public", VArr [VStr (serviceName +:+ "/*")])])).
Proof.
  intros H Hclient Hapi Hdiff Oclient Oapi. unfold patch_current in H. cbv zeta in H.
  apply bind_Returned in H as ([] & wa & Ha & H).
  apply bind_Returned in H as (c1 & wb & Hb & H).
  apply bind_Returned in H as (c2 & wc & Hc & H).
  apply bind_Returned in H as (c3 & wd & Hd & H).
  apply bind_Returned in H as (hm & we & He & H).
  apply bind_Returned in H as (c4 & wf & Hf & H).
  apply bind_Returned in H as (hr & wg & Hg & H).
  apply bind_Returned in H as (c5 & wh & Hh & H).
  unfold ret in H. injection H as _ <-.
  unfold console_info in Ha. injection Ha as <-.
  unfold isFile in He, Hg. injection He as _ <-. injection Hg as _ <-.
  set (client := clientPermFile_of serviceName) in *.
  set (api := apiPermFile_of serviceName) in *.
  (* the descriptor patch leaves both absent *)
  assert (Bclient : files wb !! realpath rt client = None).
  { pose proof (respects_Returned (agrees_at (realpath rt client)) _ _ _ _
                  (patchServiceFile_agrees rt _ _ _ _
                     (ElevateFacts.serviceFile_other rt client _ _ Oclient)) Hb) as E.
    unfold agrees_at in E. simpl in E. congruence. }
  assert (Bapi : files wb !! realpath rt api = None).
  { pose proof (respects_Returned (agrees_at (realpath rt api)) _ _ _ _
                  (patchServiceFile_agrees rt _ _ _ _
                     (ElevateFacts.serviceFile_other rt api _ _ Oapi)) Hb) as E.
    unfold agrees_at in E. simpl in E. congruence. }
  (* the client file is created, the API file still absent, then created *)
  pose proof (create_if_absent_creates _ _ _ _ _ _ _ Bclient Hc) as Cclient.
  assert (Capi0 : files wc !! realpath rt api = None).
  { pose proof (respects_Returned (agrees_at (realpath rt api)) _ _ _ _
                  (create_if_absent_agrees rt "client" client _ _ Hdiff) Hc) as E.
    unfold agrees_at in E. congruence. }
  pose proof (create_if_absent_creates _ _ _ _ _ _ _ Capi0 Hd) as Dapi.
  (* and nothing after touches either *)
  split.
  - pose proof (respects_Returned _ _ _ _ _
                  (ElevateFacts.untouched_create_if_absent rt client _ "API" api _) Hd
                  Cclient) as [Dclient _].
    assert (Fclient : files wf !! realpath rt client = Some
              (JSON_stringify rt (VObj [(serviceName +:+ "*", VArr [VStr "all"])]))).
    { destruct hm.
      - exact (proj1 (respects_Returned _ _ _ _ _
                 (ElevateFacts.untouched_patch_manifest rt client _ _ client api
                    (ElevateFacts.manifestFile_other rt client _ _ Oclient)) Hf Dclient)).
      - unfold ret in Hf. injection Hf as _ <-. exact Dclient. }
    destruct hr.
    + exact (proj1 (respects_Returned _ _ _ _ _
               (ElevateFacts.untouched_patch_role rt client _ _
                  (ElevateFacts.roleFile_other rt client _ _ Oclient)) Hh Fclient)).
    + unfold ret in Hh. injection Hh as _ <-. exact Fclient.
  - assert (Fapi : files wf !! realpath rt api = Some
              (JSON_stringify rt (VObj [("public", VArr [VStr (serviceName +:+ "/*")])]))).
    { destruct hm.
      - exact (proj1 (respects_Returned _ _ _ _ _
                 (ElevateFacts.untouched_patch_manifest rt api _ _ client api
                    (ElevateFacts.manifestFile_other rt api _ _ Oapi)) Hf Dapi)).
      - unfold ret in Hf. injection Hf as _ <-. exact Dapi. }
    destruct hr.
    + exact (proj1 (respects_Returned _ _ _ _ _
               (ElevateFacts.untouched_patch_role rt api _ _
                  (ElevateFacts.roleFile_other rt api _ _ Oapi)) Hh Fapi)).
    + unfold ret in Hh. injection Hh as _ <-. exact Fapi.
Qed.

Lemma clientPermFile_not_api serviceName :
  clientPermFile_of serviceName <> apiPermFile_of serviceName.
Proof.
  unfold clientPermFile_of, apiPermFile_of. intros H.
  apply append_inv_head, append_inv_head in H. discriminate H.
Qed.

(** by their texts, the other paths of a run lie outside the directory of
    the permission files *)
Lemma literal_paths_separate serviceName appName path :
  JsString.startsWith "/var/luna-service2-dev/client-permissions.d/" path = true ->
  Forall (fun q => q <> path) (other_paths serviceName appName).
Proof.
  intros H. unfold other_paths.
  repeat constructor; intros E; rewrite <- E in H; discriminate H.
Qed.

(** X9: when a run of the patcher returns and the descriptor of the
    service exists in the current layout, a client permission file and an
    API permission file that were absent exist afterwards, holding the
    JSON text of [{"<serviceName>*": ["all"]}] and of
    [{"public": ["<serviceName>/*"]}].  This holds where every path names
    the file of its own text, whatever the names are; and, however paths
    are resolved, for a run whose two permission paths name two files that
    none of its other paths names. *)
Theorem main_creates_permission_files rt argv w c w' :
  let serviceName := fst (resolve_names argv) in
  let appName := snd (resolve_names argv) in
  let client := realpath rt (clientPermFile_of serviceName) in
  let api := realpath rt (apiPermFile_of serviceName) in
  main rt argv w = Returned c w' ->
  is_Some (files w !! realpath rt (serviceFile_of serviceName)) ->
  files w !! client = None ->
  files w !! api = None ->
  (forall p, realpath rt p = p) \/
  (client <> api /\
   Forall (fun q => realpath rt q <> client /\ realpath rt q <> api)
     (other_paths serviceName appName)) ->
  files w' !! client
  = Some (JSON_stringify rt (VObj [(serviceName +:+ "*", VArr [VStr "all"])])) /\
  files w' !! api
  = Some (JSON_stringify rt (VObj [("public", VArr [VStr (serviceName +:+ "/*")])])).
Proof.
  cbv zeta. unfold main. destruct (resolve_names argv) as [serviceName appName].
  simpl fst. simpl snd. intros H Hservice Hclient Hapi Hsep.
  assert (Hdiff : realpath rt (clientPermFile_of serviceName)
                  <> realpath rt (apiPermFile_of serviceName)).
  { destruct Hsep as [Hid|[Hdiff _]]; [|exact Hdiff].
    rewrite !Hid. apply clientPermFile_not_api. }
  assert (Oclient : Forall (fun q => realpath rt q
                                     <> realpath rt (clientPermFile_of serviceName))
                      (other_paths serviceName appName)).
  { destruct Hsep as [Hid|[_ Hothers]].
    - eapply List.Forall_impl;
        [|exact (literal_paths_separate serviceName appName
                   (clientPermFile_of serviceName) eq_refl)].
      intros q Hq. rewrite !Hid. exact Hq.
    - eapply List.Forall_impl; [|exact Hothers]. simpl. tauto. }
  assert (Oapi : Forall (fun q => realpath rt q
                                  <> realpath rt (apiPermFile_of serviceName))
                   (other_paths serviceName appName)).
  { destruct Hsep as [Hid|[_ Hothers]].
    - eapply List.Forall_impl;
        [|exact (literal_paths_separate serviceName appName
                   (apiPermFile_of serviceName) eq_refl)].
      intros q Hq. rewrite !Hid. exact Hq.
    - eapply List.Forall_impl; [|exact Hothers]. simpl. tauto. }
  apply bind_Returned in H as (hasService & w1 & H1 & H).
  unfold isFile in H1. injection H1 as <- <-.
  rewrite bool_decide_eq_true_2 in H by exact Hservice.
  apply bind_Returned in H as (c1 & w2 & H2 & H).
  apply bind_Returned in H as (hasLegacy & w3 & H3 & H).
  unfold isFile in H3. injection H3 as <- <-.
  apply bind_Returned in H as (c2 & w4 & H4 & H).
  apply bind_Returned in H as ([] & w5 & H5 & H).
  unfold ret in H. injection H as _ <-.
  destruct (patch_current_creates _ _ _ _ _ _ H2 Hclient Hapi Hdiff Oclient Oapi)
    as [Pclient Papi].
  assert (Same : files w5 = files w4).
  { destruct (c1 || c2); unfold bind, console_info, execFile in H5;
      injection H5 as <-; reflexivity. }
  rewrite Same.
  match type of H4 with
  | (if ?b then _ else _) _ = _ => destruct b
  end.
  - split.
    + exact (proj1 (respects_Returned _ _ _ _ _
               (ElevateFacts.untouched_patch_legacy rt _ _ _ _ Oclient) H4 Pclient)).
    + exact (proj1 (respects_Returned _ _ _ _ _
               (ElevateFacts.untouched_patch_legacy rt _ _ _ _ Oapi) H4 Papi)).
  - unfold ret in H4. injection H4 as _ <-. auto.
Qed.

Lemma main_creates_permission_files_witness :
  files (final (main (sample_runtime true) ["com.example.app.service"]
                  node_service_world))
    !! "/var/luna-service2-dev/client-permissions.d/com.example.app.service.root.json"
  = Some "{}".
Proof.
  refine (proj1 (main_creates_permission_files (sample_runtime true)
                   ["com.example.app.service"] node_service_world true
                   (final (main (sample_runtime true) ["com.example.app.service"]
                             node_service_world)) _ _ _ _ _)).
  - vm_compute. reflexivity.
  - vm_compute. eauto.
  - vm_compute. reflexivity.
  - vm_compute. reflexivity.
  - right. vm_compute. split; [discriminate|]. repeat constructor; discriminate.
Defined.

(** ** Native descriptors *)

Lemma startsWith_app p r : JsString.startsWith p (p +:+ r) = true.
Proof.
  induction p as [|c p IH]; simpl; [reflexivity|].
  rewrite Ascii.eqb_refl. exact IH.
Qed.

Lemma drop_app p r : JsString.drop (String.length p) (p +:+ r) = r.
Proof. induction p as [|c p IH]; simpl; [reflexivity|exact IH]. Qed.

Lemma replace_at_head pat rep r : JsString.replace (pat +:+ r) pat rep = rep +:+ r.
Proof.
  destruct (pat +:+ r) eqn:E; simpl;
    rewrite <- E, startsWith_app, drop_app; reflexivity.
Qed.

Lemma length_app_string (p r : string) :
  String.length (p +:+ r) = (String.length p + String.length r)%nat.
Proof. induction p as [|c p IH]; simpl; [reflexivity|now rewrite IH]. Qed.

Lemma replace_skip c t p ps rep :
  p <> c ->
  JsString.replace (String c t) (String p ps) rep
  = String c (JsString.replace t (String p ps) rep).
Proof.
  intros Hc.
  change (JsString.replace (String c t) (String p ps) rep)
    with (if (if Ascii.eqb p c then JsString.startsWith ps t else false)
          then rep +:+ JsString.drop (String.length (String p ps)) (String c t)
          else String c (JsString.replace t (String p ps) rep)).
  destruct (Ascii.eqb_spec p c); [contradiction|reflexivity].
Qed.

Lemma append_longer (p r : string) : p <> "" -> r <> p +:+ r.
Proof.
  intros Hp E. apply (f_equal String.length) in E.
  rewrite length_app_string in E.
  destruct p; [contradiction|]. simpl in E. lia.
Qed.

(** X23: a native descriptor whose command line is the sandbox launcher
    for the given application and service, followed by the command of the
    service, is rewritten to the bare command: for non-empty names,
    [patchServiceFile] writes [Exec=<command>] and reports a change. *)
Theorem native_descriptor_is_unwrapped rt serviceFile app svc command w :
  app <> "" -> svc <> "" ->
  files w !! realpath rt serviceFile
  = Some ("Exec=" +:+ ("/usr/bin/jailer -t native_devmode -i " +:+ app
                       +:+ " -p /media/developer/apps/usr/palm/services/"
                       +:+ svc +:+ " ") +:+ command) ->
  exists w',
    patchServiceFile rt serviceFile (Some app) (Some svc) w = Returned true w' /\
    files w' !! realpath rt serviceFile = Some ("Exec=" +:+ command).
Proof.
  intros Happ Hsvc Hfile.
  set (launcher := "/usr/bin/jailer -t native_devmode -i " +:+ app
                   +:+ " -p /media/developer/apps/usr/palm/services/"
                   +:+ svc +:+ " ") in *.
  assert (Hmarker : JsString.includes ("Exec=" +:+ launcher +:+ command) "jailer" = true)
    by reflexivity.
  assert (Hnames : both_truthy (Some app) (Some svc) = Some (app, svc)).
  { unfold both_truthy. simpl.
    destruct (String.eqb_spec app ""); [contradiction|].
    destruct (String.eqb_spec svc ""); [contradiction|]. reflexivity. }
  assert (Hreplace : JsString.replace ("Exec=" +:+ launcher +:+ command) launcher ""
                     = "Exec=" +:+ command).
  { change ("Exec=" +:+ launcher +:+ command)
      with (String "E" (String "x" (String "e" (String "c" (String "="
              (launcher +:+ command)))))).
    assert (Hskip : forall c t, c <> "/"%char ->
              JsString.replace (String c t) launcher "" =
              String c (JsString.replace t launcher "")).
    { intros c t Hc.
      change launcher with (String "/" (JsString.drop 1 launcher)).
      apply replace_skip. congruence. }
    rewrite !Hskip by discriminate.
    rewrite replace_at_head. reflexivity. }
  assert (Hneq : ("Exec=" +:+ command =? "Exec=" +:+ launcher +:+ command)%string = false).
  { apply String.eqb_neq. intros E. apply append_inv_head in E.
    revert E. apply append_longer. unfold launcher. discriminate. }
  unfold patchServiceFile, bind, readFileSync. rewrite Hfile, Hmarker.
  rewrite Hnames. fold launcher. rewrite Hreplace.
  unfold console_info, ret, strict_neq. cbn [negb]. cbv beta iota.
  rewrite Hneq. cbn [negb]. cbv beta iota.
  unfold writeFileSync, show.
  simpl. eexists. split; [reflexivity|]. apply lookup_insert_eq.
Qed.

Lemma native_descriptor_is_unwrapped_witness :
  exists w',
    patchServiceFile (sample_runtime true) "/d.service" (Some "com.example.app")
      (Some "com.example.app.service")
      (sample_world
         (<["/d.service" :=
              "Exec=" +:+ ("/usr/bin/jailer -t native_devmode -i " +:+ "com.example.app"
                           +:+ " -p /media/developer/apps/usr/palm/services/"
                           +:+ "com.example.app.service" +:+ " ") +:+ "/opt/run"]> ∅))
    = Returned true w' /\
    files w' !! "/d.service" = Some ("Exec=" +:+ "/opt/run").
Proof.
  exact (native_descriptor_is_unwrapped (sample_runtime true) "/d.service"
           "com.example.app" "com.example.app.service" "/opt/run"
           (sample_world
              (<["/d.service" :=
                   "Exec=" +:+ ("/usr/bin/jailer -t native_devmode -i " +:+ "com.example.app"
                                +:+ " -p /media/developer/apps/usr/palm/services/"
                                +:+ "com.example.app.service" +:+ " ") +:+ "/opt/run"]> ∅))
           ltac:(discriminate) ltac:(discriminate) eq_refl).
Defined.

End ElevateMore.


(** * Properties of the control service *)

Module ServiceFacts.
Import Service.

(** ** Frames: what a computation leaves related *)

Section Frame.
Variable R : world -> world -> Prop.
Hypothesis R_refl : Reflexive R.
Hypothesis R_trans : Transitive R.

Lemma respects_ret {A} (a : A) : respects R (ret a).
Proof. intros w. apply R_refl. Qed.

Lemma respects_throw {A} err : respects R (@throw A err).
Proof. intros w. apply R_refl. Qed.

Lemma respects_pending {A} : respects R (fun w => @Pending A w).
Proof. intros w. apply R_refl. Qed.

Lemma respects_read_files : respects R read_files.
Proof. intros w. apply R_refl. Qed.

Lemma respects_bind {A B} (m : M A) (k : A -> M B) :
  respects R m -> (forall a, respects R (k a)) -> respects R (bind m k).
Proof.
  intros Hm Hk w. unfold bind. specialize (Hm w).
  destruct (m w) as [a w1|err w1|w1]; simpl in *; [|exact Hm..].
  eapply R_trans; [exact Hm|apply Hk].
Qed.

(** from the world in which [m] ends, the rest of a sequence respects [R] *)
Lemma respects_rest {A B} (m : M A) (k : A -> M B) w :
  (forall a, respects R (k a)) -> R (final (m w)) (final (bind m k w)).
Proof.
  intros Hk. unfold bind.
  destruct (m w) as [a w1|err w1|w1]; simpl; [apply Hk|apply R_refl..].
Qed.

Lemma respects_try_catch {A} (m : M A) (h : thrown -> M A) :
  respects R m -> (forall err, respects R (h err)) -> respects R (try_catch m h).
Proof.
  intros Hm Hh w. unfold try_catch. specialize (Hm w).
  destruct (m w) as [a w1|err w1|w1]; simpl in *; [exact Hm| |exact Hm].
  eapply R_trans; [exact Hm|apply Hh].
Qed.

Lemma respects_imported {A} name (impl : M A) :
  respects R impl -> respects R (imported name impl).
Proof.
  intros H. unfold imported. destruct (Adapter.exported name);
    [exact H|apply respects_throw].
Qed.

Lemma respects_all {A} (ms : list (M A)) :
  Forall (respects R) ms -> respects R (all ms).
Proof.
  induction 1 as [|m ms Hm _ IH]; intros w; simpl; [apply R_refl|].
  specialize (Hm w). specialize (IH (final (m w))).
  destruct (m w) as [a w1|err w1|w1]; simpl in *.
  - destruct (all ms w1); simpl in *; eapply R_trans; eauto.
  - eapply R_trans; eauto.
  - destruct (all ms w1); simpl in *; eapply R_trans; eauto.
Qed.

Lemma respects_tryRespond (runner : M value) :
  respects R runner ->
  (forall v, respects R (respond v)) -> respects R (emit Cancel) ->
  respects R (tryRespond runner).
Proof.
  intros Hr Hresp Hcancel w. unfold tryRespond. specialize (Hr w).
  destruct (runner w) as [a w1|err w1|w1]; simpl in *; [| |exact Hr].
  - eapply R_trans; [exact Hr|].
    apply (respects_bind (respond _) (fun _ => emit Cancel)); auto.
  - eapply R_trans; [exact Hr|].
    destruct (toString err).
    + apply (respects_bind (respond _) (fun _ => emit Cancel)); auto.
    + apply (respects_bind (emit Cancel) (fun _ => throw _)); auto.
Qed.

Lemma tryRespond_rest (runner : M value) w :
  (forall v, respects R (respond v)) -> respects R (emit Cancel) ->
  R (final (runner w)) (final (tryRespond runner w)).
Proof.
  intros Hresp Hcancel. unfold tryRespond.
  destruct (runner w) as [a w1|err w1|w1]; simpl; [| |apply R_refl].
  - apply (respects_bind (respond _) (fun _ => emit Cancel)); auto.
  - destruct (toString err).
    + apply (respects_bind (respond _) (fun _ => emit Cancel)); auto.
    + apply (respects_bind (emit Cancel) (fun _ => throw _)); auto.
Qed.

End Frame.

(** ** The functions of the service, under a frame

    [R] is any preorder on worlds that the primitive steps named in the
    hypotheses respect; each lemma depends on the hypotheses for the steps
    its function takes. *)

Section Handlers.
Variable R : world -> world -> Prop.
Hypothesis R_refl : Reflexive R.
Hypothesis R_trans : Transitive R.
Variable allowed : event -> Prop.
Hypothesis R_emit : forall ev, allowed ev -> respects R (emit ev).
Hypothesis R_insert :
  forall path contents, respects R (set_files (insert path contents)).
Hypothesis R_delete : forall path, respects R (set_files (delete path)).
Hypothesis R_idleTimeout : forall n, respects R (set_idleTimeout n).
Hypothesis R_patcher :
  forall e args r,
    respects R (set_files (child_files e (dirname e +:+ "/elevate-service") args r)).
Hypothesis allowed_progress : forall v, is_envelope v = false -> allowed (Respond v).
Hypothesis allowed_fetch : forall url, allowed (Fetch url).
Hypothesis allowed_subscribe : forall remote uri args, allowed (Subscribe remote uri args).
Hypothesis allowed_unsubscribe : forall uri, allowed (Unsubscribe uri).
Hypothesis allowed_console : forall line, allowed (Console line).
Hypothesis allowed_call : forall remote uri args, allowed (Call remote uri args).
Hypothesis allowed_exec : forall file args, allowed (Exec file args).

(** one step through a computation: a sequence, a primitive, or a case of
    its text *)
Ltac frame_step :=
  match goal with
  | |- respects _ (bind _ _) => apply respects_bind; [assumption| |intros ?]
  | |- respects _ (ret _) => apply respects_ret; assumption
  | |- respects _ (throw _) => apply respects_throw; assumption
  | |- respects _ read_files => apply respects_read_files; assumption
  | |- respects _ (imported _ _) => apply respects_imported; [assumption|]
  | |- respects _ (try_catch _ _) =>
      apply respects_try_catch; [assumption| |intros ?]
  | |- respects _ (emit _) => apply R_emit
  | |- respects _ (respond _) => apply R_emit
  | |- respects _ (set_files (insert _ _)) => apply R_insert
  | |- respects _ (set_files (delete _)) => apply R_delete
  | |- respects _ (set_idleTimeout _) => apply R_idleTimeout
  | |- allowed (Respond _) => apply allowed_progress; reflexivity
  | |- allowed _ => solve [auto]
  | |- respects _ (if ?b then _ else _) => destruct b
  | |- respects _ (match ?x with _ => _ end) => destruct x
  end.

Lemma frame_download e res path :
  respects R (download e res path
                (fun p => respond (VObj [("statusText", VStr "Downloading…");
                                         ("progress", VNum p)]))).
Proof.
  unfold download. frame_step. frame_step; [frame_step|].
  frame_step; [frame_step|]. frame_step; [|repeat frame_step].
  induction (progress res) as [|p ps IH]; simpl; [frame_step|].
  frame_step; [repeat frame_step|exact IH].
Qed.

Lemma frame_hashFile e filePath algorithm : respects R (hashFile e filePath algorithm).
Proof. unfold hashFile. repeat frame_step. Qed.

Lemma frame_download_package e payload : respects R (download_package e payload).
Proof. unfold download_package. repeat first [apply frame_download | frame_step]. Qed.

Lemma frame_verify_checksum e payload : respects R (verify_checksum e payload).
Proof. unfold verify_checksum. repeat first [apply frame_hashFile | frame_step]. Qed.

Lemma frame_listen e msgs : respects R (listen e msgs).
Proof.
  induction msgs as [|[payload|payload] rest IH]; simpl.
  - apply respects_pending; assumption.
  - frame_step; [repeat frame_step|].
    destruct (on_response payload) as [[v|err]| |];
      repeat first [exact IH | apply respects_pending; assumption | frame_step].
  - destruct (on_cancel payload); [frame_step|apply respects_pending; assumption].
Qed.

Lemma frame_installPackage e filePath : respects R (installPackage e filePath).
Proof. unfold installPackage. repeat first [apply frame_listen | frame_step]. Qed.

Lemma frame_install_until_reported e payload :
  respects R (install_until_reported e payload).
Proof.
  unfold install_until_reported.
  repeat first [apply frame_download_package | apply frame_verify_checksum
               | apply frame_installPackage | frame_step].
Qed.

Lemma frame_asyncCall e remote uri args : respects R (asyncCall e remote uri args).
Proof. unfold asyncCall. repeat frame_step. Qed.

Lemma frame_template v : respects R (template v).
Proof. unfold template. repeat frame_step. Qed.

(** a child is framed by what it does to the files *)
Lemma frame_asyncExecFile e file args :
  respects R (set_files (child_files e file args (child e file args))) ->
  respects R (asyncExecFile e file args).
Proof.
  intros Hchild. unfold asyncExecFile.
  repeat first [exact Hchild | frame_step].
Qed.

(** [reboot] is not the patcher *)
Lemma child_files_reboot e args r fs : child_files e "reboot" args r fs = fs.
Proof.
  unfold child_files.
  destruct (String.eqb_spec "reboot" (dirname e +:+ "/elevate-service")) as [E|_];
    [|reflexivity].
  exfalso. apply (f_equal String.length) in E.
  rewrite ElevateMore.length_app_string in E. simpl in E. lia.
Qed.

Lemma frame_reboot e : respects R (reboot e).
Proof.
  unfold reboot. frame_step; [|frame_step].
  apply frame_asyncExecFile. intros w. unfold set_files. simpl.
  rewrite child_files_reboot. destruct w. apply R_refl.
Qed.

Lemma frame_elevateService e pkg : respects R (elevateService e pkg).
Proof.
  unfold elevateService.
  repeat first [apply frame_asyncExecFile; apply R_patcher | frame_step].
Qed.

Lemma frame_finish_install e installedPackageId :
  respects R (finish_install e installedPackageId).
Proof.
  unfold finish_install, createToast.
  repeat first [apply frame_asyncCall | apply frame_elevateService
               | apply frame_template | frame_step].
Qed.

Lemma frame_after_download e payload :
  respects R
    (bind (bind (verify_checksum e payload)
             (fun _ => bind (respond (status "Installing…"))
                         (fun _ => installPackage e (targetPath e))))
       (finish_install e)).
Proof.
  repeat first [apply frame_verify_checksum | apply frame_installPackage
               | apply frame_finish_install | frame_step].
Qed.

Lemma frame_install e payload : respects R (install e payload).
Proof.
  unfold install.
  repeat first [apply frame_install_until_reported | apply frame_finish_install
               | frame_step].
Qed.

Lemma frame_flagRead flag : respects R (flagRead flag).
Proof. unfold flagRead, asyncAccess. repeat frame_step. Qed.

Lemma frame_flagSet e flag enabled : respects R (flagSet e flag enabled).
Proof.
  unfold flagSet, asyncWriteFile, asyncUnlink.
  repeat first [apply frame_flagRead | frame_step].
Qed.

Lemma frame_getConfiguration e : respects R (getConfiguration e).
Proof.
  unfold getConfiguration. frame_step; [|frame_step].
  apply respects_all; [assumption..|].
  simpl. repeat constructor; repeat first [apply frame_flagRead | frame_step].
Qed.

Lemma frame_setConfiguration e payload : respects R (setConfiguration e payload).
Proof.
  unfold setConfiguration. frame_step; [|frame_step].
  apply respects_all; [assumption..|].
  apply Forall_map, Forall_forall. intros [[field flagName] v] _.
  repeat first [apply frame_flagSet | frame_step].
Qed.

Lemma frame_getAppInfo e id : respects R (getAppInfo e id).
Proof.
  unfold getAppInfo.
  repeat first [apply frame_asyncCall | apply frame_template | frame_step].
Qed.

Lemma frame_runner e req : respects R (runner e req).
Proof.
  destruct req; simpl.
  - apply frame_install.
  - apply frame_getConfiguration.
  - apply frame_setConfiguration.
  - apply frame_reboot.
  - unfold checkRoot. frame_step.
  - apply frame_getAppInfo.
  - unfold getDrmStatus. frame_step.
Qed.

End Handlers.

(** ** The frames used below *)

Lemma emits_only_refl P : Reflexive (emits_only P).
Proof. intros w. exists []. rewrite app_nil_r. auto. Qed.

Lemma emits_only_trans P : Transitive (emits_only P).
Proof.
  intros w1 w2 w3 [evs [E F]] [evs' [E' F']]. exists (evs ++ evs'). split.
  - rewrite E', E, app_assoc. reflexivity.
  - apply Forall_app. auto.
Qed.

Lemma emits_only_emit (P : event -> Prop) ev :
  P ev -> respects (emits_only P) (emit ev).
Proof. intros H w. exists [ev]. simpl. auto. Qed.

Lemma emits_only_set_files P f : respects (emits_only P) (set_files f).
Proof. intros w. exists []. simpl. rewrite app_nil_r. auto. Qed.

Lemma emits_only_set_idleTimeout P n : respects (emits_only P) (set_idleTimeout n).
Proof. intros w. exists []. simpl. rewrite app_nil_r. auto. Qed.

Lemma keeps_files_refl : Reflexive keeps_files.
Proof. intros w path H. exact H. Qed.

Lemma keeps_files_trans : Transitive keeps_files.
Proof. intros w1 w2 w3 H12 H23 path H. auto. Qed.

Lemma keeps_files_emit ev : respects keeps_files (emit ev).
Proof. intros w path H. exact H. Qed.

Lemma keeps_files_insert path contents :
  respects keeps_files (set_files (insert path contents)).
Proof.
  intros w q H. simpl. destruct (decide (path = q)) as [->|Hne].
  - rewrite lookup_insert_eq. eauto.
  - rewrite lookup_insert_ne by exact Hne. exact H.
Qed.

Lemma keeps_files_set_idleTimeout n : respects keeps_files (set_idleTimeout n).
Proof. intros w path H. exact H. Qed.

(** no child removes a file: the patcher only writes *)
Lemma keeps_files_child e file args r :
  respects keeps_files (set_files (child_files e file args r)).
Proof.
  intros w path H. simpl. unfold child_files.
  destruct (String.eqb file (dirname e +:+ "/elevate-service")); [|exact H].
  destruct (ending r) as [code|signal|[|] message fields]; [| | |exact H].
  - apply (ElevateMore.main_keeps_present (patcher e) args
             (Elevate.World (files w) [] [] [])). exact H.
  - apply ElevateMore.replay_keeps_present. exact H.
  - apply ElevateMore.replay_keeps_present. exact H.
Qed.

Lemma keeps_idleTimeout_refl : Reflexive keeps_idleTimeout.
Proof. intros w. reflexivity. Qed.

Lemma keeps_idleTimeout_trans : Transitive keeps_idleTimeout.
Proof. intros w1 w2 w3 H12 H23. unfold keeps_idleTimeout in *. congruence. Qed.

Lemma keeps_idleTimeout_emit ev : respects keeps_idleTimeout (emit ev).
Proof. intros w. reflexivity. Qed.

Lemma keeps_idleTimeout_set_files f : respects keeps_idleTimeout (set_files f).
Proof. intros w. reflexivity. Qed.

(** a runner sends no envelope and no cancellation of its own *)
Lemma runner_not_final e req : respects (emits_only not_final) (runner e req).
Proof.
  apply frame_runner with (allowed := not_final);
    first [ apply emits_only_refl | apply emits_only_trans | apply emits_only_emit
          | intros; apply emits_only_set_files
          | intros; apply emits_only_set_idleTimeout
          | intros; simpl; auto ].
Qed.

Lemma install_keeps_files e payload : respects keeps_files (install e payload).
Proof.
  apply frame_install with (allowed := fun _ => True);
    first [ apply keeps_files_refl | apply keeps_files_trans
          | intros; apply keeps_files_emit | apply keeps_files_insert
          | apply keeps_files_set_idleTimeout
          | intros; apply keeps_files_child | intros; exact I ].
Qed.

Lemma after_download_keeps_files e payload :
  respects keeps_files
    (bind (bind (verify_checksum e payload)
             (fun _ => bind (respond (status "Installing…"))
                         (fun _ => installPackage e (targetPath e))))
       (finish_install e)).
Proof.
  apply frame_after_download with (allowed := fun _ => True);
    first [ apply keeps_files_refl | apply keeps_files_trans
          | intros; apply keeps_files_emit | apply keeps_files_insert
          | apply keeps_files_set_idleTimeout
          | intros; apply keeps_files_child | intros; exact I ].
Qed.

Lemma until_reported_starts_no_child e payload :
  respects (emits_only not_exec) (install_until_reported e payload).
Proof.
  apply frame_install_until_reported with (allowed := not_exec);
    first [ apply emits_only_refl | apply emits_only_trans | apply emits_only_emit
          | intros; apply emits_only_set_files | intros; exact I ].
Qed.

Lemma until_reported_keeps_idleTimeout e payload :
  respects keeps_idleTimeout (install_until_reported e payload).
Proof.
  apply frame_install_until_reported with (allowed := fun _ => True);
    first [ apply keeps_idleTimeout_refl | apply keeps_idleTimeout_trans
          | intros; apply keeps_idleTimeout_emit
          | intros; apply keeps_idleTimeout_set_files | intros; exact I ].
Qed.

Example base64_hello : Base64.encode "hello" = "aGVsbG8=".
Proof. reflexivity. Qed.

Example staging_path :
  targetPath (sample_env 0 "") = "/tmp/.hbchannel-incoming-1700000000000.ipk".
Proof. reflexivity. Qed.

Example unknown_field_is_dropped : flag_of_field "volume" = None.
Proof. reflexivity. Qed.

Example inherited_field_is_found :
  flag_of_field "constructor" = Some "function Object() { [native code] }".
Proof. reflexivity. Qed.

(** ** Traces *)

Lemma emit_eq ev w : emit ev w = Returned tt (with_events w [ev]).
Proof. reflexivity. Qed.

Lemma with_events_app w evs evs' :
  with_events (with_events w evs) evs' = with_events w (evs ++ evs').
Proof. unfold with_events. simpl. rewrite app_assoc. reflexivity. Qed.

Lemma bind_emit {B} ev (k : unit -> M B) w :
  bind (emit ev) k w = k tt (with_events w [ev]).
Proof. reflexivity. Qed.

(** ** The download and the checksum *)

Lemma progress_reports ps w :
  fold_right
    (fun p k => bind (respond (VObj [("statusText", VStr "Downloading…");
                                     ("progress", VNum p)])) (fun _ => k))
    (ret tt) ps w
  = Returned tt (with_events w (map progress_event ps)).
Proof.
  revert w. induction ps as [|p ps IH]; intros w; simpl.
  - unfold ret, with_events. rewrite app_nil_r. destruct w; reflexivity.
  - unfold respond. rewrite bind_emit, IH, with_events_app. reflexivity.
Qed.

Lemma download_completes e res w :
  denied e (targetPath e) = false ->
  stream_error res = None ->
  download e res (targetPath e)
    (fun p => respond (VObj [("statusText", VStr "Downloading…");
                             ("progress", VNum p)])) w
  = Returned tt (downloaded e res w).
Proof.
  intros Hd Hs. unfold download, imported. simpl. rewrite Hd, Hs.
  unfold bind at 1. unfold set_files at 1. unfold bind.
  rewrite progress_reports. reflexivity.
Qed.

Lemma download_creates e res w :
  denied e (targetPath e) = false ->
  is_Some (files (final (download e res (targetPath e)
                           (fun p => respond (VObj [("statusText", VStr "Downloading…");
                                                    ("progress", VNum p)])) w))
           !! targetPath e).
Proof.
  intros Hd. unfold download, imported. simpl. rewrite Hd.
  unfold bind at 1. unfold set_files at 1. unfold bind.
  rewrite progress_reports.
  destruct (stream_error res); simpl; rewrite lookup_insert_eq; eauto.
Qed.

Lemma download_package_completes e payload res w :
  fetch e (ipkUrl payload) = inr res ->
  ok res = true ->
  stream_error res = None ->
  denied e (targetPath e) = false ->
  download_package e payload w
  = Returned tt
      (downloaded e res
         (with_events w [Respond (status "Downloading…"); Fetch (ipkUrl payload)])).
Proof.
  intros Hfetch Hok Hstream Hdenied.
  unfold download_package, respond.
  rewrite !bind_emit, with_events_app, Hfetch. simpl.
  unfold bind at 1. unfold ret at 1. rewrite Hok. simpl.
  unfold bind at 1. unfold ret at 1.
  apply download_completes; assumption.
Qed.

Lemma download_package_creates e payload res w :
  fetch e (ipkUrl payload) = inr res ->
  ok res = true ->
  denied e (targetPath e) = false ->
  is_Some (files (final (download_package e payload w)) !! targetPath e).
Proof.
  intros Hfetch Hok Hdenied.
  unfold download_package, respond.
  rewrite !bind_emit, with_events_app, Hfetch. simpl.
  unfold bind at 1. unfold ret at 1. rewrite Hok. simpl.
  unfold bind at 1. unfold ret at 1.
  apply download_creates. exact Hdenied.
Qed.

Lemma verify_checksum_mismatch e payload contents w :
  files w !! targetPath e = Some contents ->
  sha256_hex e contents <> ipkHash payload ->
  verify_checksum e payload w
  = Raised (Error "Invalid file checksum")
      (with_events w [Respond (status "Verifying…")]).
Proof.
  intros Hfile Hsum. unfold verify_checksum, respond. rewrite bind_emit.
  unfold hashFile, imported. simpl.
  unfold bind at 1. unfold bind at 1. unfold read_files at 1. simpl.
  rewrite Hfile. unfold ret at 1.
  destruct (String.eqb_spec (sha256_hex e contents) (ipkHash payload));
    [contradiction|reflexivity].
Qed.

Lemma bind_assoc {A B C} (m : M A) (k : A -> M B) (h : B -> M C) w :
  bind (bind m k) h w = bind m (fun a => bind (k a) h) w.
Proof. unfold bind. destruct (m w); reflexivity. Qed.

Lemma bind_returned {A B} (m : M A) (k : A -> M B) w a w1 :
  m w = Returned a w1 -> bind m k w = k a w1.
Proof. intros E. unfold bind. rewrite E. reflexivity. Qed.

Lemma bind_raised {A B} (m : M A) (k : A -> M B) w err w1 :
  m w = Raised err w1 -> bind m k w = Raised err w1.
Proof. intros E. unfold bind. rewrite E. reflexivity. Qed.

(** C3: when the download succeeds and the SHA-256 hex digest of the
    downloaded file differs from [ipkHash], the handler of [install]
    throws the error "Invalid file checksum" (the operation answers with
    the error envelope made of it), and nothing it has done up to then,
    or does after, is a request to the install endpoint of the platform. *)
Theorem checksum_mismatch_stops_install e payload res w :
  fetch e (ipkUrl payload) = inr res ->
  ok res = true ->
  stream_error res = None ->
  denied e (targetPath e) = false ->
  sha256_hex e (String.concat "" (chunks res)) <> ipkHash payload ->
  let sent := [Respond (status "Downloading…"); Fetch (ipkUrl payload)]
              ++ map progress_event (progress res)
              ++ [Respond (status "Verifying…")] in
  let refusal := Respond (VObj [("returnValue", VBool false);
                                ("errorText", VStr "Error: Invalid file checksum")]) in
  (exists w1, install e payload w = Raised (Error "Invalid file checksum") w1 /\
              trace w1 = trace w ++ sent) /\
  (exists w2, handle e (Install payload) w = Returned tt w2 /\
              trace w2 = trace w ++ sent ++ [refusal; Cancel]) /\
  Forall not_install_call (sent ++ [refusal; Cancel]).
Proof.
  intros Hfetch Hok Hstream Hdenied Hsum. cbv zeta.
  assert (Hinstall :
    install e payload w
    = Raised (Error "Invalid file checksum")
        (with_events
           (downloaded e res
              (with_events w [Respond (status "Downloading…"); Fetch (ipkUrl payload)]))
           [Respond (status "Verifying…")])).
  { unfold install, install_until_reported.
    apply bind_raised.
    erewrite bind_returned by (apply download_package_completes; eassumption).
    apply bind_raised. apply verify_checksum_mismatch with (contents := String.concat "" (chunks res)).
    - simpl. apply lookup_insert_eq.
    - exact Hsum. }
  split; [|split].
  - eexists. split; [exact Hinstall|]. simpl. rewrite <- !app_assoc. reflexivity.
  - unfold handle, tryRespond. simpl runner. rewrite Hinstall.
    change (toString (Error "Invalid file checksum"))
      with (Some "Error: Invalid file checksum"). cbv iota.
    unfold respond. rewrite bind_emit, emit_eq.
    eexists. split; [reflexivity|]. simpl. rewrite <- !app_assoc. reflexivity.
  - rewrite !Forall_app. repeat split.
    + repeat constructor.
    + induction (progress res); simpl; constructor; [exact I|assumption].
    + repeat constructor.
    + repeat constructor.
Qed.

(** C10: the handler of [install] removes no file, so the staging file,
    once the download has created it, is still there when the operation
    ends, whether it ends with the install done, with a failed download,
    with a checksum mismatch or with an error of the platform. *)
Theorem staging_file_is_kept e payload w :
  let w' := final (handle e (Install payload) w) in
  (forall path, is_Some (files w !! path) -> is_Some (files w' !! path)) /\
  (forall res,
      fetch e (ipkUrl payload) = inr res -> ok res = true ->
      denied e (targetPath e) = false ->
      is_Some (files w' !! targetPath e)).
Proof.
  cbv zeta.
  assert (Hwrap : keeps_files (final (install e payload w))
                    (final (handle e (Install payload) w))).
  { apply (tryRespond_rest keeps_files keeps_files_refl keeps_files_trans).
    - intros v. apply keeps_files_emit.
    - apply keeps_files_emit. }
  split.
  - intros path H. apply Hwrap. apply install_keeps_files. exact H.
  - intros res Hfetch Hok Hdenied. apply Hwrap.
    unfold install, install_until_reported. rewrite bind_assoc.
    apply (respects_rest keeps_files keeps_files_refl).
    + intros []. apply after_download_keeps_files.
    + eapply download_package_creates; eassumption.
Qed.

(** ** Self-elevation *)

(** C4, as stated, fails: without root, an install whose reported package
    id is the application's own does not start the patcher. *)
Lemma self_install_without_root_counterexample :
  let e := sample_env 1000 "org.webosbrew.hbchannel" in
  let payload := sample_payload "sha256:PKG" in
  (exists w1, install_until_reported e payload sample_world
              = Returned (VStr (kHomebrewChannelPackageId e)) w1) /\
  ~ elevates e (final (handle e (Install payload) sample_world)).
Proof.
  cbv zeta. split.
  - eexists. vm_compute. reflexivity.
  - intros [Hin _]. vm_compute in Hin.
    repeat (destruct Hin as [Hin|Hin]; [discriminate Hin|]). exact Hin.
Qed.

Lemma is_str_eq s v : Js.is_str s v = true -> v = VStr s.
Proof.
  destruct v; simpl; try discriminate. intros H.
  apply String.eqb_eq in H. congruence.
Qed.

(** for a package id that is not the application's own, the rest of the
    handler starts no child process and leaves the idle timeout *)
Lemma finish_install_other e id :
  Js.is_str (kHomebrewChannelPackageId e) id = false ->
  respects (emits_only not_exec) (finish_install e id) /\
  respects keeps_idleTimeout (finish_install e id).
Proof.
  intros Hother. unfold finish_install, createToast. rewrite Hother. split.
  - apply respects_bind; [apply emits_only_trans| |intros text].
    { apply frame_template; apply emits_only_refl. }
    apply respects_bind; [apply emits_only_trans| |intros _].
    { apply frame_asyncCall with (allowed := not_exec);
        first [ apply emits_only_refl | apply emits_only_trans
              | apply emits_only_emit | intros; exact I ]. }
    apply respects_bind; [apply emits_only_trans| |intros _];
      apply respects_ret; apply emits_only_refl.
  - apply respects_bind; [apply keeps_idleTimeout_trans| |intros text].
    { apply frame_template; apply keeps_idleTimeout_refl. }
    apply respects_bind; [apply keeps_idleTimeout_trans| |intros _].
    { apply frame_asyncCall with (allowed := fun _ => True);
        first [ apply keeps_idleTimeout_refl | apply keeps_idleTimeout_trans
              | intros; apply keeps_idleTimeout_emit | intros; exact I ]. }
    apply respects_bind; [apply keeps_idleTimeout_trans| |intros _];
      apply respects_ret; apply keeps_idleTimeout_refl.
Qed.

(** what [tryRespond] adds after its runner starts no child process and
    leaves the idle timeout *)
Lemma tryRespond_adds_no_child (runner : M value) w :
  emits_only not_exec (final (runner w)) (final (tryRespond runner w)) /\
  idleTimeout (final (tryRespond runner w)) = idleTimeout (final (runner w)).
Proof.
  split.
  - apply (tryRespond_rest (emits_only not_exec) (emits_only_refl _)
             (emits_only_trans _)).
    + intros v. apply emits_only_emit. exact I.
    + apply emits_only_emit. exact I.
  - apply (tryRespond_rest keeps_idleTimeout keeps_idleTimeout_refl
             keeps_idleTimeout_trans).
    + intros v. apply keeps_idleTimeout_emit.
    + apply keeps_idleTimeout_emit.
Qed.

(** C4, amended: in an install whose reported package id is the
    application's own and whose first toast is delivered, a service that
    runs as root starts the patcher with that id and, when the patcher
    exits with status 0, sets the idle timeout to 1; a service that does
    not run as root starts no child process, logs that it skips the
    elevation, and sets the idle timeout to 1.  For every other reported
    id no child process is started and the idle timeout stays as it
    was. *)
Theorem self_install_elevation e payload w id w1 :
  install_until_reported e payload w = Returned id w1 ->
  let w' := final (handle e (Install payload) w) in
  exists evs,
    trace w' = trace w ++ evs /\
    if Js.is_str (kHomebrewChannelPackageId e) id
    then toast_delivered e ("Application installed: " +:+ kHomebrewChannelPackageId e) ->
         if runningAsRoot e
         then In (elevation e) evs /\ (patcher_succeeds e -> idleTimeout w' = 1%Z)
         else Forall not_exec evs /\
              In (Console "Trying to elevate service without running as root. Skipping.")
                 evs /\
              idleTimeout w' = 1%Z
    else Forall not_exec evs /\ idleTimeout w' = idleTimeout w.
Proof.
  intros Hrep. cbv zeta.
  destruct (until_reported_starts_no_child e payload w) as [evs0 [E0 F0]].
  pose proof (until_reported_keeps_idleTimeout e payload w) as Hidle.
  unfold keeps_idleTimeout in Hidle. rewrite Hrep in E0, Hidle. simpl in E0, Hidle.
  assert (Hrun : runner e (Install payload) w = finish_install e id w1).
  { simpl. unfold install. apply bind_returned. exact Hrep. }
  destruct (tryRespond_adds_no_child (runner e (Install payload)) w)
    as [[evs2 [E2 F2]] I2].
  fold (handle e (Install payload)) in E2, I2. rewrite Hrun in E2, I2.
  destruct (Js.is_str (kHomebrewChannelPackageId e) id) eqn:Hown.
  - apply is_str_eq in Hown. subst id.
    destruct (frame_runner (emits_only (fun _ => True)) (emits_only_refl _)
                (emits_only_trans _) (fun _ => True)
                (fun ev _ => emits_only_emit _ ev I)
                (fun path contents => emits_only_set_files _ _)
                (fun path => emits_only_set_files _ _)
                (fun n => emits_only_set_idleTimeout _ n)
                (fun e0 args r => emits_only_set_files _ _)
                (fun _ _ => I) (fun _ => I) (fun _ _ _ => I) (fun _ => I)
                (fun _ => I) (fun _ _ _ => I) (fun _ _ => I)
                e (Install payload) w) as [evs1 [E1 _]].
    rewrite Hrun in E1.
    exists (evs1 ++ evs2). split; [rewrite E2, E1, app_assoc; reflexivity|].
    intros Htoast. unfold toast_delivered in Htoast.
    revert E1 E2 I2.
    unfold finish_install, template, createToast, asyncCall, elevateService,
      asyncExecFile, imported, bind, respond, emit, ret, throw, set_idleTimeout,
      set_files.
    simpl in Htoast |- *. rewrite Htoast, String.eqb_refl. simpl.
    destruct (runningAsRoot e); simpl.
    + unfold patcher_succeeds, child_error, elevation.
      destruct (ending (child e (dirname e +:+ "/elevate-service")
                          [kHomebrewChannelPackageId e])) as [code| |] eqn:Hend; simpl.
      * destruct (code =? 0)%Z eqn:Hcode; simpl.
        -- match goal with |- context [if ?c then _ else _] => destruct c end; simpl;
             intros E1 E2 I2; rewrite E0, <- !app_assoc in E1;
             apply app_inv_head in E1; subst evs1;
             (split; [rewrite !in_app_iff; simpl; tauto|]);
             intros _; rewrite I2; reflexivity.
        -- intros E1 E2 I2. rewrite E0, <- !app_assoc in E1.
           apply app_inv_head in E1. subst evs1.
           split; [rewrite !in_app_iff; simpl; tauto|].
           intros Hzero. injection Hzero as ->. discriminate Hcode.
      * intros E1 E2 I2. rewrite E0, <- !app_assoc in E1.
        apply app_inv_head in E1. subst evs1.
        split; [rewrite !in_app_iff; simpl; tauto|discriminate].
      * intros E1 E2 I2. rewrite E0, <- !app_assoc in E1.
        apply app_inv_head in E1. subst evs1.
        split; [rewrite !in_app_iff; simpl; tauto|discriminate].
    + match goal with |- context [if ?c then _ else _] => destruct c end; simpl;
        intros E1 E2 I2; rewrite E0, <- !app_assoc in E1;
        apply app_inv_head in E1; subst evs1;
        (split; [rewrite !Forall_app; repeat split; try exact F0; try exact F2;
                 repeat constructor|]);
        (split; [rewrite !in_app_iff; simpl; tauto|rewrite I2; reflexivity]).
  - destruct (finish_install_other e id Hown) as [Fexec Fidle].
    destruct (Fexec w1) as [evs1 [E1 F1]]. specialize (Fidle w1).
    unfold keeps_idleTimeout in Fidle.
    exists (evs0 ++ evs1 ++ evs2). split.
    + rewrite E2, E1, E0, <- !app_assoc. reflexivity.
    + split; [rewrite !Forall_app; auto|]. rewrite I2, Fidle. exact Hidle.
Qed.

Lemma self_install_elevation_witness :
  let e := sample_env 0 "org.webosbrew.hbchannel" in
  let payload := sample_payload "sha256:PKG" in
  let w' := final (handle e (Install payload) sample_world) in
  In (elevation e) (trace w') /\ idleTimeout w' = 1%Z.
Proof.
  cbv zeta.
  destruct (self_install_elevation (sample_env 0 "org.webosbrew.hbchannel")
              (sample_payload "sha256:PKG") sample_world
              (VStr "org.webosbrew.hbchannel")
              (final (install_until_reported (sample_env 0 "org.webosbrew.hbchannel")
                        (sample_payload "sha256:PKG") sample_world))
              ltac:(vm_compute; reflexivity))
    as [evs [Etrace Hown]].
  destruct (Hown ltac:(vm_compute; reflexivity)) as [Hin Hidle].
  split; [rewrite Etrace; exact Hin|apply Hidle; reflexivity].
Defined.

Lemma checksum_mismatch_stops_install_witness :
  let e := sample_env 0 "com.example.app" in
  exists w1, install e (sample_payload "0000") sample_world
             = Raised (Error "Invalid file checksum") w1 /\
             trace w1 = [Respond (status "Downloading…");
                         Fetch "https://repo.example/app.ipk";
                         progress_event 50; progress_event 100;
                         Respond (status "Verifying…")].
Proof.
  cbv zeta.
  exact (proj1 (checksum_mismatch_stops_install (sample_env 0 "com.example.app")
                  (sample_payload "0000") sample_response sample_world
                  eq_refl eq_refl eq_refl eq_refl ltac:(discriminate))).
Defined.

Lemma staging_file_is_kept_witness :
  let e := sample_env 0 "com.example.app" in
  is_Some (files (final (handle e (Install (sample_payload "0000")) sample_world))
           !! "/tmp/.hbchannel-incoming-1700000000000.ipk").
Proof.
  cbv zeta.
  exact (proj2 (staging_file_is_kept (sample_env 0 "com.example.app")
                  (sample_payload "0000") sample_world)
           sample_response eq_refl eq_refl eq_refl).
Defined.

(** ** The flags *)

(** [asyncAccess] is not among the exports of the adapter, so the call in
    [flagRead] fails, the failure is caught, and the answer is [false]. *)
Lemma flagRead_false flag w : flagRead flag w = Returned false w.
Proof. reflexivity. Qed.

(** C6 (the code falls short of the claim): [getConfiguration] reports
    every flag as unset in every state, also right after
    [setConfiguration] has created the marker file of [telnetDisabled]
    (whose own answer says [false] as well); and the field name
    [constructor], which is no flag, is not ignored: it is looked up in
    the prototype of [availableFlags], a marker file named after the
    function found there is written, and the field is part of the
    answer. *)
Theorem flags_read_unset_and_inherited_names_pass e w :
  getConfiguration e w
  = Returned (VObj [("root", VBool (runningAsRoot e));
                    ("telnetDisabled", VBool false); ("failsafe", VBool false);
                    ("sshdEnabled", VBool false); ("blockUpdates", VBool false)]) w /\
  (exists w1,
      setConfiguration (sample_env 0 "") [("telnetDisabled", VBool true)] sample_world
      = Returned (VObj [("telnetDisabled", VBool false)]) w1 /\
      files w1 !! "/var/luna/preferences/webosbrew_telnet_disabled" = Some "1") /\
  (exists w2,
      setConfiguration (sample_env 0 "") [("constructor", VBool true)] sample_world
      = Returned (VObj [("constructor", VBool false)]) w2 /\
      files w2 !! "/var/luna/preferences/function Object() { [native code] }"
      = Some "1").
Proof.
  split; [reflexivity|].
  split; eexists; (split; [vm_compute; reflexivity|vm_compute; reflexivity]).
Qed.

(** ** The wrapper *)

(** C5 (the code falls short of the claim): for every operation
    registered through [tryRespond] and every request, the runner itself
    sends no envelope and no cancellation.  When it returns [v], the
    wrapper sends the success envelope built from [v] and then the
    cancellation.  When it throws an [Error], the wrapper sends the error
    envelope whose [errorText] is the name of the error, a colon and the
    message, and then the cancellation; when it rejects with the payload
    of a failed bus call, [errorText] is the text of a plain object.  But
    when that payload has a field named [toString] of its own, the call
    [err.toString()] in the [catch] block throws: no envelope is sent,
    only the cancellation of the [finally] block, and the handler ends
    with the [TypeError]; so for [getAppInfo] when the listing is refused
    with such a payload. *)
Theorem tryRespond_contract e req w :
  (exists evs, trace (final (runner e req w)) = trace w ++ evs /\
               Forall not_final evs) /\
  match runner e req w with
  | Returned v w1 =>
      handle e req w
      = Returned tt
          (with_events w1
             [Respond (VObj (Js.spread [("returnValue", VBool true)] (Js.own_fields v)));
              Cancel])
  | Raised (JsError name message code) w1 =>
      handle e req w
      = Returned tt
          (with_events w1
             [Respond (VObj [("returnValue", VBool false);
                             ("errorText",
                              VStr (if String.eqb name "" then message
                                    else if String.eqb message "" then name
                                    else name +:+ ": " +:+ message))]);
              Cancel])
  | Raised (Rejected payload) w1 =>
      match Js.assoc "toString" payload with
      | None =>
          handle e req w
          = Returned tt
              (with_events w1
                 [Respond (VObj [("returnValue", VBool false);
                                 ("errorText", VStr "[object Object]")]);
                  Cancel])
      | Some _ =>
          handle e req w
          = Raised (JsError "TypeError" "err.toString is not a function" None)
              (with_events w1 [Cancel])
      end
  | Pending w1 => handle e req w = Pending w1
  end /\
  handle (env_with_reply [("returnValue", VBool false); ("toString", VStr "no")] Runs)
    (GetAppInfo (VStr "com.example.app")) sample_world
  = Raised (JsError "TypeError" "err.toString is not a function" None)
      (with_events sample_world
         [Call false "luna://com.webos.applicationManager/dev/listApps" (VObj []);
          Cancel]).
Proof.
  split; [apply runner_not_final|]. split; [|reflexivity].
  unfold handle, tryRespond.
  destruct (runner e req w) as [v w1|[name message code|payload] w1|w1];
    [| | |reflexivity].
  - unfold respond. rewrite bind_emit, emit_eq, with_events_app. reflexivity.
  - unfold toString, respond.
    rewrite bind_emit, emit_eq, with_events_app. reflexivity.
  - unfold toString. destruct (Js.assoc "toString" payload).
    + rewrite bind_emit. reflexivity.
    + unfold respond. rewrite bind_emit, emit_eq, with_events_app. reflexivity.
Qed.

(** ** [exec] *)

Lemma sextet_arithmetic (a b c : N) :
  (a < 256 -> b < 256 -> c < 256 ->
   (a * 65536 + b * 256 + c) / 262144 = a / 4 /\
   ((a * 65536 + b * 256 + c) / 4096) mod 64 = a mod 4 * 16 + b / 16 /\
   ((a * 65536 + b * 256 + c) / 64) mod 64 = b mod 16 * 4 + c / 64 /\
   (a * 65536 + b * 256 + c) mod 64 = c mod 64)%N.
Proof.
  intros Ha Hb Hc.
  repeat split; zify; Z.to_euclidean_division_equations; lia.
Qed.

Lemma N_of_ascii_bound a : (N_of_ascii a < 256)%N.
Proof.
  destruct a as [[] [] [] [] [] [] [] []]; vm_compute; reflexivity.
Qed.

(** C9, as stated, fails: a command that does not end gets no response. *)
Lemma exec_without_response_counterexample :
  let e := env_with_reply [] Runs in
  exec e "cat" sample_world = Pending (with_events sample_world [Shell "cat"]) /\
  Forall (fun ev => match ev with Respond _ => False | _ => True end)
    (trace (final (exec e "cat" sample_world))).
Proof. cbv zeta. split; [reflexivity|]. vm_compute. repeat constructor. Qed.

(** C9, amended: the handler of [exec] responds from the callback of
    [child_process.exec].  For a command that ends it sends exactly one
    response, with the four output fields in text and base64: a success
    envelope with [error] null when the command exited with status 0,
    and otherwise (it exited with another status, was ended by a signal
    or could not be run) an error envelope whose [errorText] is the
    message of the error and whose [error] is the error object, which is
    not null.  As long as the command has not ended, and when
    [child_process.exec] itself throws, no response is sent.  Base64 is
    the encoding of RFC 4648 with padding: three bytes give four
    characters of the alphabet [A-Za-z0-9+/]. *)
Theorem exec_responds_when_command_ends e command w :
  match shell e command with
  | Ends r =>
      exists response,
        exec e command w
        = Returned tt (with_events w [Shell command; Respond response]) /\
        Js.prop "stdoutString" response = VStr (utf8 e (stdout r)) /\
        Js.prop "stdoutBytes" response = VStr (Base64.encode (stdout r)) /\
        Js.prop "stderrString" response = VStr (utf8 e (stderr r)) /\
        Js.prop "stderrBytes" response = VStr (Base64.encode (stderr r)) /\
        match ending r with
        | Exited 0 =>
            Js.prop "returnValue" response = VBool true /\
            Js.prop "errorText" response = VUndefined /\
            Js.prop "error" response = VNull
        | Exited code =>
            Js.prop "returnValue" response = VBool false /\
            Js.prop "errorText" response
            = VStr ("Command failed: " +:+ command +:+ String "010"%char
                      (utf8 e (stderr r))) /\
            Js.prop "error" response
            = VObj [("code", VNum code); ("killed", VBool (killed r));
                    ("signal", VNull); ("cmd", VStr command)]
        | Signalled signal =>
            Js.prop "returnValue" response = VBool false /\
            Js.prop "errorText" response
            = VStr ("Command failed: " +:+ command +:+ String "010"%char
                      (utf8 e (stderr r))) /\
            Js.prop "error" response
            = VObj [("code", VNull); ("killed", VBool (killed r));
                    ("signal", VStr signal); ("cmd", VStr command)]
        | Errored _ message fields =>
            Js.prop "returnValue" response = VBool false /\
            Js.prop "errorText" response = VStr message /\
            (exists fields', Js.prop "error" response = VObj fields' /\
                             Js.assoc "cmd" fields' = Some (VStr command))
        end
  | Runs => exec e command w = Pending (with_events w [Shell command])
  | Refused err => exec e command w = Raised err (with_events w [Shell command])
  end /\
  (forall a b c rest,
      let sextet n :=
        default "="%char
          (String.get (N.to_nat n)
             "ABCDEFGHIJKLMNOPQRSTUVWXYZabcdefghijklmnopqrstuvwxyz0123456789+/") in
      let x := N_of_ascii a in
      let y := N_of_ascii b in
      let z := N_of_ascii c in
      Base64.encode (String a (String b (String c rest)))
      = String (sextet (x / 4)%N)
          (String (sextet (x mod 4 * 16 + y / 16)%N)
             (String (sextet (y mod 16 * 4 + z / 64)%N)
                (String (sextet (z mod 64)%N) (Base64.encode rest)))) /\
      Base64.encode (String a (String b EmptyString))
      = String (sextet (x / 4)%N)
          (String (sextet (x mod 4 * 16 + y / 16)%N)
             (String (sextet (y mod 16 * 4)%N) "=")) /\
      Base64.encode (String a EmptyString)
      = String (sextet (x / 4)%N) (String (sextet (x mod 4 * 16)%N) "==")) /\
  Base64.encode "" = "" /\
  Base64.encode "foobar" = "Zm9vYmFy" /\
  Base64.encode "fooba" = "Zm9vYmE=" /\
  Base64.encode "foob" = "Zm9vYg==".
Proof.
  split; [|split; [|repeat split; reflexivity]].
  - unfold exec. rewrite bind_emit.
    destruct (shell e command) as [r| |err]; [|reflexivity..].
    unfold exec_response, child_error, error_object, respond.
    destruct (ending r) as [code|signal|started message fields];
      [destruct code as [|c|c]|..];
      simpl; rewrite emit_eq; unfold with_events; simpl; rewrite <- app_assoc;
      eexists; (split; [reflexivity|]); simpl; repeat split.
    eexists. split; [reflexivity|]. apply ElevateMore.assoc_assoc_set.
  - intros a b c rest. cbv zeta.
    pose proof (N_of_ascii_bound a) as Ha.
    pose proof (N_of_ascii_bound b) as Hb.
    pose proof (N_of_ascii_bound c) as Hc.
    assert (H0 : (0 < 256)%N) by reflexivity.
    repeat split.
    + simpl Base64.encode. unfold Base64.quad, Base64.digit, Base64.alphabet.
      destruct (sextet_arithmetic _ _ _ Ha Hb Hc) as (-> & -> & -> & ->).
      reflexivity.
    + simpl Base64.encode. unfold Base64.quad, Base64.digit, Base64.alphabet.
      destruct (sextet_arithmetic _ _ 0%N Ha Hb H0) as (-> & -> & E & _).
      rewrite E. rewrite N.add_0_r. reflexivity.
    + simpl Base64.encode. unfold Base64.quad, Base64.digit, Base64.alphabet.
      destruct (sextet_arithmetic _ 0%N 0%N Ha H0 H0) as (-> & E & _ & _).
      rewrite E. rewrite N.add_0_r. reflexivity.
Qed.

End ServiceFacts.




(** * Further properties of the control service *)

Module ServiceMore.
Import Service.

(** ** The order of the stages of [install] *)

Lemma bind_pending {A B} (m : M A) (k : A -> M B) w w1 :
  m w = Pending w1 -> bind m k w = Pending w1.
Proof. intros E. unfold bind. rewrite E. reflexivity. Qed.

Lemma download_and_verify_quiet e payload :
  respects (emits_only not_install_call)
    (bind (download_package e payload) (fun _ => verify_checksum e payload)).
Proof.
  apply ServiceFacts.respects_bind; [apply ServiceFacts.emits_only_trans| |intros _].
  - apply ServiceFacts.frame_download_package with (allowed := not_install_call);
      first [ apply ServiceFacts.emits_only_refl | apply ServiceFacts.emits_only_trans
            | apply ServiceFacts.emits_only_emit
            | intros; apply ServiceFacts.emits_only_set_files | intros; exact I ].
  - apply ServiceFacts.frame_verify_checksum with (allowed := not_install_call);
      first [ apply ServiceFacts.emits_only_refl | apply ServiceFacts.emits_only_trans
            | apply ServiceFacts.emits_only_emit | intros; exact I ].
Qed.

(** the download, case by case *)
Lemma download_cases e res w :
  download e res (targetPath e)
    (fun p => respond (VObj [("statusText", VStr "Downloading…");
                             ("progress", VNum p)])) w
  = if denied e (targetPath e)
    then Raised (JsError "Error" "EACCES: permission denied" (Some "EACCES")) w
    else match stream_error res with
         | Some message => Raised (Error message) (downloaded e res w)
         | None => Returned tt (downloaded e res w)
         end.
Proof.
  unfold download, imported. simpl. destruct (denied e (targetPath e)); [reflexivity|].
  unfold bind at 1. unfold set_files at 1. unfold bind.
  rewrite ServiceFacts.progress_reports.
  destruct (stream_error res); reflexivity.
Qed.

Lemma download_package_cases e payload w :
  let w0 := with_events w [Respond (status "Downloading…"); Fetch (ipkUrl payload)] in
  download_package e payload w
  = match fetch e (ipkUrl payload) with
    | inl message => Raised (JsError "FetchError" message None) w0
    | inr res =>
        if ok res then
          download e res (targetPath e)
            (fun p => respond (VObj [("statusText", VStr "Downloading…");
                                     ("progress", VNum p)])) w0
        else Raised (Error (statusText res)) w0
    end.
Proof.
  cbv zeta. unfold download_package, respond.
  rewrite !ServiceFacts.bind_emit, ServiceFacts.with_events_app.
  destruct (fetch e (ipkUrl payload)) as [message|res]; [reflexivity|].
  unfold bind at 1. unfold ret at 1.
  destruct (ok res); simpl; [|reflexivity].
  unfold bind at 1. unfold ret at 1. reflexivity.
Qed.

Lemma download_and_verify_returns e payload w w1 :
  bind (download_package e payload) (fun _ => verify_checksum e payload) w
  = Returned tt w1 ->
  exists res,
    fetch e (ipkUrl payload) = inr res /\ ok res = true /\ stream_error res = None /\
    denied e (targetPath e) = false /\
    sha256_hex e (String.concat "" (chunks res)) = ipkHash payload.
Proof.
  unfold bind at 1. rewrite download_package_cases. cbv zeta.
  destruct (fetch e (ipkUrl payload)) as [message|res]; [discriminate|].
  destruct (ok res) eqn:Hok; [|discriminate].
  rewrite download_cases.
  destruct (denied e (targetPath e)) eqn:Hdenied; [discriminate|].
  destruct (stream_error res) eqn:Hstream; [discriminate|].
  intros H. exists res. repeat (split; [auto; fail|]).
  destruct (String.eqb_spec (sha256_hex e (String.concat "" (chunks res)))
              (ipkHash payload)) as [Heq|Hne]; [exact Heq|].
  rewrite (ServiceFacts.verify_checksum_mismatch e payload
             (String.concat "" (chunks res))) in H; [discriminate H| |exact Hne].
  simpl. apply lookup_insert_eq.
Qed.

(** X10: the install endpoint of the platform is addressed only after the
    package was downloaded completely into the staging file and the
    SHA-256 digest of what was downloaded equals [ipkHash]: an install
    operation in whose course the endpoint is addressed had an HTTP
    response that was ok, a body stream without error, a writable staging
    file and a matching digest. *)
Theorem install_call_needs_verified_download e payload w remote args :
  In (Subscribe remote install_uri args)
     (trace (final (handle e (Install payload) w))) ->
  ~ In (Subscribe remote install_uri args) (trace w) ->
  exists res,
    fetch e (ipkUrl payload) = inr res /\ ok res = true /\ stream_error res = None /\
    denied e (targetPath e) = false /\
    sha256_hex e (String.concat "" (chunks res)) = ipkHash payload.
Proof.
  intros Hin Hold.
  destruct (bind (download_package e payload) (fun _ => verify_checksum e payload) w)
    as [[] w1|err w1|w1] eqn:Hdv.
  { eapply download_and_verify_returns. exact Hdv. }
  all: exfalso.
  all: destruct (download_and_verify_quiet e payload w) as [evs [E F]].
  all: rewrite Hdv in E; simpl in E.
  all: assert (Hinstall : install e payload w
                          = bind (bind (download_package e payload)
                                    (fun _ => verify_checksum e payload))
                              (fun _ => bind (bind (respond (status "Installing…"))
                                                (fun _ => installPackage e (targetPath e)))
                                          (finish_install e)) w)
         by (unfold install, install_until_reported, bind;
             destruct (download_package e payload w) as [[] wa|erra wa|wa];
             [destruct (verify_checksum e payload wa) as [[] wb|errb wb|wb]|..];
             reflexivity).
  all: assert (Hfinal : final (install e payload w) = w1)
         by (rewrite Hinstall;
             first [ rewrite (ServiceFacts.bind_raised _ _ _ _ _ Hdv)
                   | rewrite (bind_pending _ _ _ _ Hdv) ]; reflexivity).
  all: destruct (ServiceFacts.tryRespond_rest (emits_only not_install_call)
                   (ServiceFacts.emits_only_refl _) (ServiceFacts.emits_only_trans _)
                   (install e payload) w
                   (fun v => ServiceFacts.emits_only_emit not_install_call (Respond v) I)
                   (ServiceFacts.emits_only_emit not_install_call Cancel I))
         as [evs2 [E2 F2]].
  all: rewrite Hfinal in E2.
  all: change (tryRespond (install e payload)) with (handle e (Install payload)) in E2.
  all: rewrite E2, E, !in_app_iff in Hin.
  all: destruct Hin as [[Hin|Hin]|Hin]; [contradiction| |].
  all: rewrite Forall_forall in F, F2.
  all: first [ apply list_elem_of_In, F in Hin | apply list_elem_of_In, F2 in Hin ].
  all: simpl in Hin; contradiction.
Qed.

Lemma install_call_needs_verified_download_witness :
  exists res,
    fetch (sample_env 0 "com.example.app") (ipkUrl (sample_payload "sha256:PKG"))
    = inr res /\ ok res = true /\ stream_error res = None /\
    denied (sample_env 0 "com.example.app") (targetPath (sample_env 0 "com.example.app"))
    = false /\
    sha256_hex (sample_env 0 "com.example.app") (String.concat "" (chunks res))
    = ipkHash (sample_payload "sha256:PKG").
Proof.
  refine (install_call_needs_verified_download (sample_env 0 "com.example.app")
            (sample_payload "sha256:PKG") sample_world false
            (VObj [("id", VStr "testing");
                   ("ipkUrl", VStr "/tmp/.hbchannel-incoming-1700000000000.ipk");
                   ("subscribe", VBool true)]) _ _).
  - vm_compute. repeat (first [left; reflexivity | right]).
  - vm_compute. intros [].
Defined.

(** X11: when the HTTP request fails or its response is not ok, the
    operation ends with the error (the text of [FetchError], or the status
    text of the response) after the first progress message: no staging
    file is created, no file is changed, nothing is hashed or installed. *)
Theorem failed_fetch_ends_install e payload w :
  match fetch e (ipkUrl payload) with
  | inl message =>
      install e payload w
      = Raised (JsError "FetchError" message None)
          (with_events w [Respond (status "Downloading…"); Fetch (ipkUrl payload)])
  | inr res =>
      ok res = false ->
      install e payload w
      = Raised (Error (statusText res))
          (with_events w [Respond (status "Downloading…"); Fetch (ipkUrl payload)])
  end.
Proof.
  unfold install, install_until_reported.
  destruct (fetch e (ipkUrl payload)) as [message|res] eqn:Hfetch; [|intros Hok];
    do 2 apply ServiceFacts.bind_raised;
    rewrite download_package_cases; cbv zeta; rewrite Hfetch; [reflexivity|].
  rewrite Hok. reflexivity.
Qed.

Lemma failed_fetch_ends_install_witness :
  handle (env_with_fetch (inr not_found)) (Install (sample_payload "")) sample_world
  = Returned tt
      (with_events sample_world
         [Respond (status "Downloading…"); Fetch "https://repo.example/app.ipk";
          Respond (VObj [("returnValue", VBool false);
                         ("errorText", VStr "Error: Not Found")]);
          Cancel]).
Proof.
  unfold handle, tryRespond. simpl runner.
  rewrite (failed_fetch_ends_install (env_with_fetch (inr not_found))
             (sample_payload "") sample_world eq_refl).
  reflexivity.
Defined.

(** ** [installPackage] *)

Lemma strict_eq_false_iff v b : Js.strict_eq v (VBool b) = false <-> v <> VBool b.
Proof.
  destruct v as [| |b'| | | |]; simpl; split; try discriminate; try reflexivity.
  - intros H E. injection E as ->. destruct b; discriminate H.
  - intros H. destruct b', b; try reflexivity; contradiction H; reflexivity.
Qed.

Lemma strict_eq_num_false_iff v n : Js.strict_eq v (VNum n) = false <-> v <> VNum n.
Proof.
  destruct v as [| | |m| | |]; simpl; split; try discriminate; try reflexivity.
  - intros H E. injection E as ->. rewrite Z.eqb_refl in H. discriminate H.
  - intros H. apply Z.eqb_neq. intros E. apply H. congruence.
Qed.

Lemma on_response_in_progress fields :
  in_progress fields -> on_response (VObj fields) = Listen.
Proof.
  intros (Hrv & Hdetails & Hstatus). unfold on_response.
  apply strict_eq_false_iff in Hrv. rewrite Hrv.
  apply strict_eq_num_false_iff in Hstatus. rewrite Hstatus.
  destruct Hdetails as [-> | ->]; [reflexivity|].
  simpl. rewrite andb_false_r. reflexivity.
Qed.

Lemma on_response_installed fields details :
  Js.prop "returnValue" (VObj fields) <> VBool false ->
  Js.prop "details" (VObj fields) = VObj details ->
  Js.assoc "errorCode" details = None ->
  Js.prop "statusValue" (VObj fields) = VNum 30 ->
  on_response (VObj fields)
  = Settle (Resolved (default VUndefined (Js.assoc "packageId" details))).
Proof.
  intros Hrv Hdetails Hcode Hstatus. unfold on_response.
  apply strict_eq_false_iff in Hrv. rewrite Hrv, Hdetails, Hstatus.
  unfold Js.prop at 1. rewrite Hcode. reflexivity.
Qed.

(** the responses in progress are logged, one by one, and nothing else is
    done for them *)
Lemma listen_passes_over e skipped rest w :
  Forall in_progress skipped ->
  listen e (map (fun fields => Response (VObj fields)) skipped ++ rest) w
  = listen e rest (with_events w (map (logged e) skipped)).
Proof.
  intros Hall. revert w. induction Hall as [|fields skipped Hp _ IH]; intros w.
  - simpl. unfold with_events. rewrite app_nil_r. destruct w; reflexivity.
  - cbn [map app listen].
    rewrite (on_response_in_progress _ Hp), ServiceFacts.bind_emit, IH,
      ServiceFacts.with_events_app.
    reflexivity.
Qed.

(** X12: [installPackage] subscribes to the install endpoint with
    [{id: "testing", ipkUrl: filePath, subscribe: true}].  The responses
    in progress (no failure, [statusValue] other than 30) are logged and
    passed over; at the first response after them whose [statusValue] is
    30, which is no failure and has a [details] object, the promise is
    resolved with [details.packageId] and the subscription is cancelled
    with [req.cancel()].  What the subscription would deliver after that
    plays no part. *)
Theorem installPackage_resolves_with_reported_id
    e filePath skipped fields details rest w :
  let args := VObj [("id", VStr "testing"); ("ipkUrl", VStr filePath);
                    ("subscribe", VBool true)] in
  subscription e install_uri args
  = map (fun fs => Response (VObj fs)) skipped ++ Response (VObj fields) :: rest ->
  Forall in_progress skipped ->
  Js.prop "returnValue" (VObj fields) <> VBool false ->
  Js.prop "details" (VObj fields) = VObj details ->
  Js.assoc "errorCode" details = None ->
  Js.prop "statusValue" (VObj fields) = VNum 30 ->
  installPackage e filePath w
  = Returned (default VUndefined (Js.assoc "packageId" details))
      (with_events w
         (Subscribe (getInstallerService e)
            "luna://com.webos.appInstallService/dev/install" args
          :: map (logged e) skipped
          ++ [logged e fields;
              Unsubscribe "luna://com.webos.appInstallService/dev/install"])).
Proof.
  cbv zeta. intros Hsub Hskipped Hrv Hdetails Hcode Hstatus.
  unfold installPackage. rewrite ServiceFacts.bind_emit, Hsub.
  rewrite (listen_passes_over _ _ _ _ Hskipped).
  cbn [listen].
  rewrite (on_response_installed _ _ Hrv Hdetails Hcode Hstatus).
  rewrite !ServiceFacts.bind_emit. unfold ret, logged.
  rewrite !ServiceFacts.with_events_app. simpl. reflexivity.
Qed.

Lemma installPackage_resolves_with_reported_id_witness :
  installPackage (sample_env 0 "com.example.app") "/tmp/app.ipk" sample_world
  = Returned (VStr "com.example.app")
      (with_events sample_world
         [Subscribe false "luna://com.webos.appInstallService/dev/install"
            (VObj [("id", VStr "testing"); ("ipkUrl", VStr "/tmp/app.ipk");
                   ("subscribe", VBool true)]);
          Console "appInstallService response: { ... }";
          Console "appInstallService response: { ... }";
          Unsubscribe "luna://com.webos.appInstallService/dev/install"]).
Proof.
  exact (installPackage_resolves_with_reported_id (sample_env 0 "com.example.app")
           "/tmp/app.ipk" [[("statusValue", VNum 10)]]
           [("statusValue", VNum 30);
            ("details", VObj [("packageId", VStr "com.example.app")])]
           [("packageId", VStr "com.example.app")] [] sample_world
           eq_refl
           ltac:(repeat constructor; simpl; first [discriminate | auto])
           ltac:(discriminate) eq_refl eq_refl eq_refl).
Defined.

(** ** [getAppInfo] *)

Lemma find_app_first appId before app after :
  Forall (fun a => a <> VNull /\ a <> VUndefined /\
                   Js.strict_eq (Js.prop "id" a) appId = false) before ->
  app <> VNull -> app <> VUndefined ->
  Js.strict_eq (Js.prop "id" app) appId = true ->
  find_app appId (before ++ app :: after) = Some app.
Proof.
  intros Hbefore Hnull Hundef Hid.
  induction Hbefore as [|a before (Ha1 & Ha2 & Ha3) _ IH]; simpl.
  - destruct app; try contradiction; simpl in *; rewrite ?Hid; try reflexivity;
      discriminate Hid.
  - destruct a; try contradiction; simpl in *; rewrite ?Ha3; exact IH.
Qed.

(** X14: when the listing of the platform succeeds and its [apps] array
    has an entry whose [id] is strictly equal to the (truthy) [id] of the
    request, with no [null] entry and no entry of that [id] before it,
    [getAppInfo] asks the platform once and answers with the success
    envelope [{returnValue: true, appId, appInfo}], where [appInfo] is
    that first entry; then the cancellation is sent. *)
Theorem getAppInfo_returns_listed_app e id before app after w :
  Js.truthy id = true ->
  Js.truthy
    (Js.prop "returnValue"
       (VObj (call_reply e "luna://com.webos.applicationManager/dev/listApps"
                (VObj [])))) = true ->
  Js.prop "apps"
    (VObj (call_reply e "luna://com.webos.applicationManager/dev/listApps" (VObj [])))
  = VArr (before ++ app :: after) ->
  Forall (fun a => a <> VNull /\ a <> VUndefined /\
                   Js.strict_eq (Js.prop "id" a) id = false) before ->
  Js.strict_eq (Js.prop "id" app) id = true ->
  handle e (GetAppInfo id) w
  = Returned tt
      (with_events w
         [Call (negb (uid e =? 0)%Z) "luna://com.webos.applicationManager/dev/listApps"
            (VObj []);
          Respond (VObj [("returnValue", VBool true); ("appId", id); ("appInfo", app)]);
          Cancel]).
Proof.
  intros Hid Hok Happs Hbefore Hmatch.
  assert (Hobj : exists fields, app = VObj fields).
  { destruct app; simpl in Hmatch; destruct id; try discriminate; eauto. }
  destruct Hobj as [fields ->].
  unfold handle, tryRespond. simpl runner. unfold getAppInfo.
  rewrite Hid. simpl negb. cbv iota.
  unfold bind at 1. unfold ret at 1.
  unfold bind at 1. unfold asyncCall. rewrite ServiceFacts.bind_emit, Hok.
  unfold ret at 1. unfold bind at 1. rewrite Happs.
  rewrite (find_app_first id before (VObj fields) after Hbefore)
    by first [discriminate | exact Hmatch].
  unfold ret at 1. cbv iota. simpl Js.truthy. simpl negb. cbv iota.
  unfold bind at 1. unfold ret at 1. unfold ret at 1.
  unfold respond. rewrite ServiceFacts.bind_emit, ServiceFacts.emit_eq,
    !ServiceFacts.with_events_app.
  reflexivity.
Qed.

Lemma getAppInfo_returns_listed_app_witness :
  handle (env_with_fetch (inr not_found)) (GetAppInfo (VStr "com.example.app"))
    sample_world
  = Returned tt
      (with_events sample_world
         [Call false "luna://com.webos.applicationManager/dev/listApps" (VObj []);
          Respond (VObj [("returnValue", VBool true);
                         ("appId", VStr "com.example.app");
                         ("appInfo", VObj [("id", VStr "com.example.app");
                                           ("title", VStr "App")])]);
          Cancel]).
Proof.
  exact (getAppInfo_returns_listed_app (env_with_fetch (inr not_found))
           (VStr "com.example.app")
           [VObj [("id", VStr "com.example.one")]]
           (VObj [("id", VStr "com.example.app"); ("title", VStr "App")]) []
           sample_world eq_refl eq_refl eq_refl
           ltac:(repeat constructor; discriminate) eq_refl).
Defined.

(** X15: a request of [getAppInfo] without an [id] (missing, empty,
    [null]) is refused before the platform is asked: the only things sent
    are the error envelope with the text of the missing field and the
    cancellation. *)
Theorem getAppInfo_without_id e id w :
  Js.truthy id = false ->
  handle e (GetAppInfo id) w
  = Returned tt
      (with_events w
         [Respond (VObj [("returnValue", VBool false);
                         ("errorText", VStr "Error: missing `id` string field")]);
          Cancel]).
Proof.
  intros Hid. unfold handle, tryRespond. simpl runner. unfold getAppInfo.
  rewrite Hid. simpl.
  unfold respond. rewrite ServiceFacts.bind_emit, ServiceFacts.emit_eq,
    ServiceFacts.with_events_app. reflexivity.
Qed.

Lemma getAppInfo_without_id_witness :
  handle (sample_env 0 "") (GetAppInfo VUndefined) sample_world
  = Returned tt
      (with_events sample_world
         [Respond (VObj [("returnValue", VBool false);
                         ("errorText", VStr "Error: missing `id` string field")]);
          Cancel]).
Proof.
  exact (getAppInfo_without_id (sample_env 0 "") VUndefined sample_world eq_refl).
Defined.

(** ** What the operations leave alone *)

Lemma same_files_refl : Reflexive same_files.
Proof. intros w. reflexivity. Qed.

Lemma same_files_trans : Transitive same_files.
Proof. intros w1 w2 w3 H12 H23. unfold same_files in *. congruence. Qed.

Lemma same_files_emit ev : respects same_files (emit ev).
Proof. intros w. reflexivity. Qed.

Lemma same_files_set_idleTimeout n : respects same_files (set_idleTimeout n).
Proof. intros w. reflexivity. Qed.

(** X16: the operations that only read ([getConfiguration], [reboot],
    [checkRoot], [getAppInfo], [getDrmStatus]) change no file of the
    service's file system, however they end. *)
Theorem reading_operations_keep_files e req w :
  reads_only req = true -> files (final (handle e req w)) = files w.
Proof.
  intros Hro. unfold handle.
  apply (ServiceFacts.respects_tryRespond same_files same_files_refl same_files_trans);
    [|intros v; apply same_files_emit|apply same_files_emit].
  destruct req; try discriminate Hro; simpl runner.
  - apply ServiceFacts.frame_getConfiguration;
      first [apply same_files_refl | apply same_files_trans].
  - apply ServiceFacts.frame_reboot with (allowed := fun _ => True);
      first [ apply same_files_refl | apply same_files_trans
            | intros; apply same_files_emit | intros; exact I ].
  - apply ServiceFacts.respects_ret, same_files_refl.
  - apply ServiceFacts.frame_getAppInfo with (allowed := fun _ => True);
      first [ apply same_files_refl | apply same_files_trans
            | intros; apply same_files_emit | intros; exact I ].
  - apply ServiceFacts.respects_ret, same_files_refl.
Qed.

Lemma reading_operations_keep_files_witness :
  files (final (handle (sample_env 0 "") Reboot sample_world)) = files sample_world.
Proof.
  exact (reading_operations_keep_files (sample_env 0 "") Reboot sample_world eq_refl).
Defined.

(** X17: no operation but [install] changes the idle timeout of the
    service. *)
Theorem only_install_changes_idleTimeout e req w :
  (forall payload, req <> Install payload) ->
  idleTimeout (final (handle e req w)) = idleTimeout w.
Proof.
  intros Hreq. unfold handle.
  apply (ServiceFacts.respects_tryRespond keeps_idleTimeout
           ServiceFacts.keeps_idleTimeout_refl ServiceFacts.keeps_idleTimeout_trans);
    [|intros v; apply ServiceFacts.keeps_idleTimeout_emit
     |apply ServiceFacts.keeps_idleTimeout_emit].
  destruct req as [payload| | | | | |]; simpl runner.
  - destruct (Hreq payload). reflexivity.
  - apply ServiceFacts.frame_getConfiguration;
      first [ apply ServiceFacts.keeps_idleTimeout_refl
            | apply ServiceFacts.keeps_idleTimeout_trans ].
  - apply ServiceFacts.frame_setConfiguration;
      first [ apply ServiceFacts.keeps_idleTimeout_refl
            | apply ServiceFacts.keeps_idleTimeout_trans
            | intros; apply ServiceFacts.keeps_idleTimeout_set_files ].
  - apply ServiceFacts.frame_reboot with (allowed := fun _ => True);
      first [ apply ServiceFacts.keeps_idleTimeout_refl
            | apply ServiceFacts.keeps_idleTimeout_trans
            | intros; apply ServiceFacts.keeps_idleTimeout_emit | intros; exact I ].
  - apply ServiceFacts.respects_ret, ServiceFacts.keeps_idleTimeout_refl.
  - apply ServiceFacts.frame_getAppInfo with (allowed := fun _ => True);
      first [ apply ServiceFacts.keeps_idleTimeout_refl
            | apply ServiceFacts.keeps_idleTimeout_trans
            | intros; apply ServiceFacts.keeps_idleTimeout_emit | intros; exact I ].
  - apply ServiceFacts.respects_ret, ServiceFacts.keeps_idleTimeout_refl.
Qed.

Lemma only_install_changes_idleTimeout_witness :
  idleTimeout (final (handle (sample_env 0 "")
                        (SetConfiguration [("sshdEnabled", VBool true)]) sample_world))
  = 5%Z.
Proof.
  exact (only_install_changes_idleTimeout (sample_env 0 "")
           (SetConfiguration [("sshdEnabled", VBool true)]) sample_world
           ltac:(discriminate)).
Defined.

(** ** The flags *)

Lemma marker_agrees_refl path : Reflexive (agrees_at path).
Proof. intros w. reflexivity. Qed.

Lemma marker_agrees_trans path : Transitive (agrees_at path).
Proof. intros w1 w2 w3 H12 H23. unfold agrees_at in *. congruence. Qed.

Lemma flagPath_in_preferences flag :
  JsString.startsWith "/var/luna/preferences/" (flagPath flag) = true.
Proof. reflexivity. Qed.

Lemma flagPath_inj a b : flagPath a = flagPath b -> a = b.
Proof. unfold flagPath. apply ElevateMore.append_inv_head. Qed.

(** the files after [flagSet], case by case *)
Lemma flagSet_files e flag enabled w :
  files (final (flagSet e flag enabled w))
  = if Js.truthy enabled
    then if denied e (flagPath flag) then files w
         else <[flagPath flag := "1"]> (files w)
    else if bool_decide (is_Some (files w !! flagPath flag))
         then if denied e (flagPath flag) then files w
              else delete (flagPath flag) (files w)
         else files w.
Proof.
  unfold flagSet, asyncWriteFile, asyncUnlink, imported. simpl.
  destruct (Js.truthy enabled).
  - unfold bind. destruct (denied e (flagPath flag)); reflexivity.
  - unfold bind, try_catch, read_files.
    destruct (bool_decide (is_Some (files w !! flagPath flag)));
      [destruct (denied e (flagPath flag))|]; reflexivity.
Qed.

Lemma flagSet_agrees path e flag enabled :
  flagPath flag <> path -> respects (agrees_at path) (flagSet e flag enabled).
Proof.
  intros Hne w. unfold agrees_at. rewrite flagSet_files.
  repeat match goal with |- context [if ?b then _ else _] => destruct b end;
    try reflexivity.
  - apply lookup_insert_ne. exact Hne.
  - apply lookup_delete_ne. exact Hne.
Qed.

(** X18: whatever field names a [setConfiguration] request holds, the
    operation creates and removes files only in the preferences
    directory: a path that does not begin with [/var/luna/preferences/]
    holds afterwards what it held before. *)
Theorem setConfiguration_stays_in_preferences e payload w path :
  JsString.startsWith "/var/luna/preferences/" path = false ->
  files (final (handle e (SetConfiguration payload) w)) !! path = files w !! path.
Proof.
  intros Hout. unfold handle.
  apply (ServiceFacts.respects_tryRespond (agrees_at path) (marker_agrees_refl path)
           (marker_agrees_trans path));
    [|intros v w0; reflexivity|intros w0; reflexivity].
  simpl runner. unfold setConfiguration.
  apply ServiceFacts.respects_bind; [apply marker_agrees_trans| |intros entries].
  - apply ServiceFacts.respects_all;
      [apply marker_agrees_refl|apply marker_agrees_trans|].
    apply Forall_map, List.Forall_forall. intros [[field flagName] v] _.
    apply ServiceFacts.respects_bind; [apply marker_agrees_trans| |intros b].
    + apply flagSet_agrees. intros E. rewrite <- E in Hout.
      rewrite flagPath_in_preferences in Hout. discriminate Hout.
    + apply ServiceFacts.respects_ret, marker_agrees_refl.
  - apply ServiceFacts.respects_ret, marker_agrees_refl.
Qed.

Lemma setConfiguration_stays_in_preferences_witness :
  files (final (handle (sample_env 0 "")
                  (SetConfiguration [("constructor", VBool true);
                                     ("__proto__", VBool true)])
                  sample_world))
    !! "/etc/passwd"
  = None.
Proof.
  exact (setConfiguration_stays_in_preferences (sample_env 0 "")
           [("constructor", VBool true); ("__proto__", VBool true)]
           sample_world "/etc/passwd" eq_refl).
Defined.

(** X19: a [setConfiguration] request whose field names are neither flags
    nor names found in the prototype of [availableFlags] has no effect and
    is answered with no fields. *)
Theorem unknown_fields_are_ignored e payload w :
  Forall (fun kv => flag_of_field (fst kv) = None) payload ->
  setConfiguration e payload w = Returned (VObj []) w.
Proof.
  intros Hall. unfold setConfiguration.
  assert (Hsel : omap (fun '(field, v) =>
                         match flag_of_field field with
                         | Some flagName => Some (field, flagName, v)
                         | None => None
                         end) payload = []).
  { induction Hall as [|[field v] rest Hkv _ IH]; [reflexivity|].
    simpl in Hkv. cbn [omap list_omap]. rewrite Hkv. exact IH. }
  rewrite Hsel. reflexivity.
Qed.

Lemma unknown_fields_are_ignored_witness :
  setConfiguration (sample_env 0 "")
    [("volume", VBool true); ("TelnetDisabled", VBool false)] sample_world
  = Returned (VObj []) sample_world.
Proof.
  exact (unknown_fields_are_ignored (sample_env 0 "")
           [("volume", VBool true); ("TelnetDisabled", VBool false)] sample_world
           ltac:(repeat constructor)).
Defined.

(** X20: clearing a flag: when the marker file is absent, nothing happens
    and nothing is thrown (the ENOENT of [unlink] is swallowed); when it
    exists and may be removed, it is removed; when it exists and may not
    be removed, the error of [unlink] is thrown on and the file remains.
    The answer, where there is one, is [false]. *)
Theorem flagSet_clears e flag enabled w :
  Js.truthy enabled = false ->
  match files w !! flagPath flag with
  | None => flagSet e flag enabled w = Returned false w
  | Some _ =>
      if denied e (flagPath flag)
      then flagSet e flag enabled w
           = Raised (JsError "Error" "EACCES: permission denied" (Some "EACCES")) w
      else flagSet e flag enabled w
           = Returned false
               {| files := delete (flagPath flag) (files w);
                  trace := trace w; idleTimeout := idleTimeout w |}
  end.
Proof.
  intros Hfalsy. unfold flagSet, asyncUnlink, imported. rewrite Hfalsy. simpl.
  unfold bind, try_catch, read_files.
  destruct (files w !! flagPath flag) as [contents|] eqn:Hfile.
  - rewrite bool_decide_eq_true_2 by eauto.
    destruct (denied e (flagPath flag)); reflexivity.
  - rewrite bool_decide_eq_false_2 by (intros [x Hx]; discriminate Hx). reflexivity.
Qed.

Lemma flagSet_clears_witness :
  flagSet (sample_env 0 "") "webosbrew_failsafe" (VBool false) sample_world
  = Returned false sample_world.
Proof.
  exact (flagSet_clears (sample_env 0 "") "webosbrew_failsafe" (VBool false)
           sample_world eq_refl).
Defined.

Lemma final_all_cons {A} (m : M A) (rest : list (M A)) w :
  final (all (m :: rest) w) = final (all rest (final (m w))).
Proof.
  simpl. destruct (m w) as [a w1|err w1|w1]; simpl; [| reflexivity |];
    destruct (all rest w1); reflexivity.
Qed.

Lemma all_keeps {A} (P : world -> Prop) (ms : list (M A)) :
  Forall (fun m => forall w, P w -> P (final (m w))) ms ->
  forall w, P w -> P (final (all ms w)).
Proof.
  induction ms as [|m rest IH]; intros Hkeep w Hw; [exact Hw|].
  apply Forall_cons in Hkeep as [Hk Hks].
  rewrite final_all_cons. apply IH; [exact Hks|]. apply Hk. exact Hw.
Qed.

(** what one of the computations under [Promise.all] establishes, and the
    others keep, holds in the end, however the whole ends *)
Lemma all_establishes {A} (P : world -> Prop) (ms : list (M A)) :
  Forall (fun m => forall w, P w -> P (final (m w))) ms ->
  Exists (fun m => forall w, P (final (m w))) ms ->
  forall w, P (final (all ms w)).
Proof.
  induction ms as [|m rest IH]; intros Hkeep Hsome w.
  - apply Exists_nil in Hsome. contradiction.
  - apply Forall_cons in Hkeep as [Hk Hks].
    rewrite final_all_cons.
    apply Exists_cons in Hsome as [Hm|Hrest].
    + apply all_keeps; [exact Hks|apply Hm].
    + apply IH; assumption.
Qed.

Lemma selected_from_payload payload field flagName (v : value) :
  In (field, flagName, v)
     (omap (fun '(field, v) =>
              match flag_of_field field with
              | Some flagName => Some (field, flagName, v)
              | None => None
              end) payload)
  <-> In (field, v) payload /\ flag_of_field field = Some flagName.
Proof.
  induction payload as [|[f x] rest IH]; simpl; [tauto|].
  cbn [omap list_omap]. destruct (flag_of_field f) as [fl|] eqn:Hf; simpl.
  - rewrite IH. split.
    + intros [E|[Hin Hfl]]; [injection E as <- <- <-; auto|auto].
    + intros [[E|Hin] Hfl]; [injection E as <- <-|]; auto.
      left. congruence.
  - rewrite IH. split.
    + intros [Hin Hfl]. auto.
    + intros [[E|Hin] Hfl]; [injection E as <- <-; congruence|auto].
Qed.

(** X21: the flags of one [setConfiguration] request are set
    independently: a field of the request with a truthy value whose marker
    file may be written has its marker file afterwards, also when the
    operation as a whole fails because another flag of the same request
    could not be written or removed (provided no field of the request
    clears that same flag). *)
Theorem writable_flags_are_set e payload w field v flagName :
  In (field, v) payload ->
  flag_of_field field = Some flagName ->
  Js.truthy v = true ->
  denied e (flagPath flagName) = false ->
  (forall field' v', In (field', v') payload ->
                     flag_of_field field' = Some flagName -> Js.truthy v' = true) ->
  files (final (setConfiguration e payload w)) !! flagPath flagName = Some "1".
Proof.
  intros Hin Hflag Htruthy Hdenied Hothers.
  unfold setConfiguration.
  set (selected := omap _ payload).
  set (run := fun '(field, flagName, v) =>
                bind (flagSet e flagName v) (fun b => ret (field, VBool b))).
  assert (Hfinal : forall w0 (x : string * string * value),
             files (final (run x w0))
             = files (final (flagSet e (snd (fst x)) (snd x) w0))).
  { intros w0 [[f fl] x]. simpl. unfold bind.
    destruct (flagSet e fl x w0); reflexivity. }
  assert (Hall : files (final (all (map run selected) w)) !! flagPath flagName
                 = Some "1").
  { apply (all_establishes (fun w0 => files w0 !! flagPath flagName = Some "1")).
    - apply Forall_map, List.Forall_forall. intros [[f fl] x] Hsel w0 Hw0.
      apply selected_from_payload in Hsel as [Hpay Hfl].
      rewrite Hfinal, flagSet_files. simpl.
      destruct (decide (fl = flagName)) as [->|Hne].
      + rewrite (Hothers _ _ Hpay Hfl), Hdenied. apply lookup_insert_eq.
      + assert (Hp : flagPath fl <> flagPath flagName)
          by (intros E; apply Hne, flagPath_inj, E).
        repeat match goal with |- context [if ?b then _ else _] => destruct b end;
          try exact Hw0.
        * rewrite lookup_insert_ne by exact Hp. exact Hw0.
        * rewrite lookup_delete_ne by exact Hp. exact Hw0.
    - apply List.Exists_exists. exists (run (field, flagName, v)). split.
      + apply in_map. apply selected_from_payload. auto.
      + intros w0. rewrite Hfinal, flagSet_files. simpl.
        rewrite Htruthy, Hdenied. apply lookup_insert_eq. }
  unfold bind. fold run.
  destruct (all (map run selected) w); exact Hall.
Qed.

Lemma writable_flags_are_set_witness :
  files (final (setConfiguration (env_with_fetch (inr not_found))
                  [("failsafe", VBool true); ("sshdEnabled", VBool true)]
                  sample_world))
    !! flagPath "webosbrew_sshd_enabled"
  = Some "1".
Proof.
  refine (writable_flags_are_set (env_with_fetch (inr not_found))
            [("failsafe", VBool true); ("sshdEnabled", VBool true)] sample_world
            "sshdEnabled" (VBool true) "webosbrew_sshd_enabled" _ eq_refl eq_refl
            eq_refl _).
  - right. left. reflexivity.
  - intros field' v' [E|[E|[]]] Hf; injection E as <- <-;
      [discriminate Hf|reflexivity].
Defined.

(** ** [spawn] *)

(** X22: the handler of [spawn] answers every piece of output and every
    end of the child with one response, in the order in which the child
    emits them, each naming its event; none of these responses is a
    success or error envelope, and the call is never cancelled by the
    handler. *)
Theorem spawn_forwards_events e command emitted w :
  spawn e command emitted w
  = Returned tt
      (with_events w
         (Exec "/bin/sh" ["-c"; command]
          :: map (fun ev => Respond (spawn_response e ev)) emitted)) /\
  Forall (fun ev => is_envelope (spawn_response e ev) = false /\
                    exists name, Js.prop "event" (spawn_response e ev) = VStr name)
         emitted.
Proof.
  split.
  - unfold spawn. rewrite ServiceFacts.bind_emit.
    change (Exec "/bin/sh" ["-c"; command]
            :: map (fun ev => Respond (spawn_response e ev)) emitted)
      with ([Exec "/bin/sh" ["-c"; command]]
            ++ map (fun ev => Respond (spawn_response e ev)) emitted).
    rewrite <- ServiceFacts.with_events_app.
    generalize (with_events w [Exec "/bin/sh" ["-c"; command]]). clear w.
    induction emitted as [|ev rest IH]; intros w; simpl.
    + unfold ret, with_events. rewrite app_nil_r. destruct w; reflexivity.
    + unfold respond. rewrite ServiceFacts.bind_emit, IH, ServiceFacts.with_events_app.
      reflexivity.
  - apply List.Forall_forall. intros ev _.
    destruct ev; simpl; split; try reflexivity; eexists; reflexivity.
Qed.

(** ** A patcher that fails *)




End ServiceMore.
